(** * Disease_match.py: transcript tokenisation and disease-keyword scoring

    A shallow embedding of [get_transcript_words] and [match_disease] from
    [src/Disease_match.py], and the properties of the keyword matcher.

    Conventions of the embedding.
    - Text is ASCII: a Python [str] is a [string], one [ascii] per character.
      Characters above 127 are outside the model (they are neither word
      characters nor whitespace here, and [lower] leaves them alone);
      Python's [lower] on other alphabets can depend on the context of a
      letter, which the model does not follow.
    - Python floats are modelled by exact rationals [Q]; [round(x, 1)] is
      rounding to the nearest tenth, ties to the even tenth. A double and
      the rational it stands for can fall on different sides of a tie
      (0.65 * 53.0 + 0.35 * 20.0 is 41.450000000000003 as a double and
      rounds to 41.5, the rational 41.45 rounds to 41.4), so a rounded
      number of the model can be one tenth away from the one the code
      prints; bounds and orders of the numbers are not affected.
    - [fuzz.partial_ratio] belongs to the third-party library rapidfuzz; the
      scoring code is parametric in it, and only its documented range
      0..100 is assumed.
    - The file system is an explicit argument: a keyword folder is absent,
      unlistable, or a list of directory entries in enumeration order. *)

From Stdlib Require Import Ascii String QArith Qround Qminmax Lqa.
From stdpp Require Import gmap strings list sorting.

Local Open Scope string_scope.

(** ** Text primitives *)

Module Text.

Definition code (c : ascii) : N := N_of_ascii c.

Definition is_upper (c : ascii) : bool :=
  ((65 <=? code c) && (code c <=? 90))%N.

Definition is_lower (c : ascii) : bool :=
  ((97 <=? code c) && (code c <=? 122))%N.

Definition is_digit (c : ascii) : bool :=
  ((48 <=? code c) && (code c <=? 57))%N.

(** [\w] on ASCII text: letters, digits and the underscore. *)
Definition is_word (c : ascii) : bool :=
  is_upper c || is_lower c || is_digit c || (code c =? 95)%N.

(** [\s], and the whitespace of [str.split()] and [str.strip()]:
    tab, line feed, vertical tab, form feed, carriage return, the four
    separators 0x1c..0x1f, and the space. *)
Definition is_space (c : ascii) : bool :=
  (((9 <=? code c) && (code c <=? 13)) || ((28 <=? code c) && (code c <=? 32)))%N.

Definition lower_char (c : ascii) : ascii :=
  if is_upper c then ascii_of_N (code c + 32) else c.

(** [str.lower()] *)
Fixpoint lower (s : string) : string :=
  match s with
  | EmptyString => EmptyString
  | String c s' => String (lower_char c) (lower s')
  end.

(** [re.sub(r"[^\w\s]", "", text)] *)
Fixpoint strip_punct (s : string) : string :=
  match s with
  | EmptyString => EmptyString
  | String c s' =>
      if is_word c || is_space c then String c (strip_punct s')
      else strip_punct s'
  end.

Definition push_word (w : string) (ws : list string) : list string :=
  match w with
  | EmptyString => ws
  | _ => w :: ws
  end.

(** One pass from the right: the word being read at the front of the
    string, and the completed words after it. *)
Fixpoint split_go (s : string) : string * list string :=
  match s with
  | EmptyString => (EmptyString, [])
  | String c s' =>
      let '(w, ws) := split_go s' in
      if is_space c then (EmptyString, push_word w ws)
      else (String c w, ws)
  end.

(** [str.split()]: the maximal runs of non-whitespace characters. *)
Definition split (s : string) : list string :=
  let '(w, ws) := split_go s in push_word w ws.

Fixpoint lstrip (s : string) : string :=
  match s with
  | EmptyString => EmptyString
  | String c s' => if is_space c then lstrip s' else s
  end.

Fixpoint rstrip (s : string) : string :=
  match s with
  | EmptyString => EmptyString
  | String c s' =>
      match rstrip s' with
      | EmptyString => if is_space c then EmptyString else String c EmptyString
      | r => String c r
      end
  end.

(** [str.strip()] *)
Definition strip (s : string) : string := rstrip (lstrip s).

(** [" ".join(ws)] is [String.concat " " ws]. *)
Definition join (ws : list string) : string := String.concat " " ws.

(** [re.search(re.escape(pat), s)]: [pat] occurs in [s] as a literal,
    case-sensitive substring. *)
Fixpoint search (pat s : string) : bool :=
  String.prefix pat s ||
  match s with
  | EmptyString => false
  | String _ s' => search pat s'
  end.

(** [s.endswith(suf)] *)
Fixpoint endswith (suf s : string) : bool :=
  String.eqb s suf ||
  match s with
  | EmptyString => false
  | String _ s' => endswith suf s'
  end.

Fixpoint remove_go (pat : string) (skip : nat) (s : string) : string :=
  match s with
  | EmptyString => EmptyString
  | String c s' =>
      match skip with
      | S k => remove_go pat k s'
      | O =>
          if String.prefix pat s then remove_go pat (String.length pat - 1) s'
          else String c (remove_go pat 0 s')
      end
  end.

(** [s.replace(pat, "")]: every occurrence of [pat], found left to right
    without overlap, is removed. *)
Definition remove_all (pat s : string) : string :=
  match pat with
  | EmptyString => s
  | _ => remove_go pat 0 s
  end.

(** All characters of a string satisfy a test. *)
Fixpoint all_chars (p : ascii -> bool) (s : string) : bool :=
  match s with
  | EmptyString => true
  | String c s' => p c && all_chars p s'
  end.

End Text.

(** ** Characters and words of the cleaned text *)

Definition not_space (c : ascii) : bool := negb (Text.is_space c).

(** A character that [lower] and [strip_punct] leave in place. *)
Definition clean_char (c : ascii) : bool :=
  negb (Text.is_upper c) && (Text.is_word c || Text.is_space c).

(** A word as [split] produces them: not empty, free of whitespace, and
    made of characters that pass [p]. *)
Definition is_token (p : ascii -> bool) (w : string) : Prop :=
  w ≠ EmptyString ∧ Text.all_chars (fun c => p c && not_space c) w = true.

(** ** STEP 2: unique words of the transcript *)

Definition stop_words : gset string :=
  list_to_set
    [ "a"; "an"; "and"; "are"; "as"; "at"; "be"; "but"; "by"; "for"; "if";
      "in"; "is"; "it"; "its"; "it's"; "of"; "on"; "or"; "so"; "such";
      "that"; "the"; "their"; "then"; "there"; "these"; "they"; "this";
      "to"; "was"; "with";
      "i"; "me"; "my"; "myself"; "we"; "our"; "ours"; "ourselves"; "you";
      "your"; "yours"; "yourself"; "yourselves"; "he"; "him"; "his";
      "himself"; "she"; "her"; "hers"; "herself"; "they"; "them"; "their";
      "theirs"; "themselves";
      "am"; "been"; "being"; "can"; "could"; "did"; "do"; "does"; "doesn't";
      "doing"; "don't"; "get"; "gets"; "getting"; "got"; "gotten"; "go";
      "goes"; "going"; "had"; "has"; "hasn't"; "have"; "haven't"; "having";
      "is"; "isn't"; "make"; "makes"; "making"; "should"; "used"; "was";
      "wasn't"; "were"; "weren't"; "will"; "would";
      "about"; "after"; "against"; "all"; "almost"; "also"; "although";
      "always"; "any"; "anywhere"; "because"; "become"; "before"; "bit";
      "chapped"; "clothes"; "come"; "concern"; "cuts"; "else"; "especially";
      "even"; "every"; "feel"; "feels"; "feeling"; "find"; "found"; "from";
      "further"; "here"; "how"; "however"; "just"; "kind"; "know"; "like";
      "little"; "look"; "looks"; "made"; "many"; "may"; "more"; "most";
      "much"; "must"; "now"; "noticed"; "onto"; "other"; "over"; "own";
      "pexing"; "quite"; "read"; "really"; "see"; "seen"; "seem"; "seemed";
      "see"; "show"; "since"; "skin"; "small"; "some"; "sometimes"; "soon";
      "spot"; "spread"; "started"; "still"; "such"; "than"; "thank"; "thanks";
      "that's"; "there"; "therefore"; "these"; "those"; "through"; "time";
      "times"; "today"; "too"; "try"; "up"; "upon"; "us"; "very"; "want";
      "wanted"; "way"; "well"; "what"; "when"; "where"; "which"; "while";
      "who"; "whom"; "why"; "work" ].

(** [text.lower()], then the punctuation removed. *)
Definition clean_text (text : string) : string :=
  Text.strip_punct (Text.lower text).

Definition all_words (text : string) : list string :=
  Text.split (clean_text text).

Definition found_keywords (text : string) : gset string :=
  list_to_set
    (filter (λ word, (word ∉ stop_words) ∧ (2 < String.length word)%nat)
            (all_words text)).

(** [sorted(found_keywords)]: the elements of the set in increasing
    code-point order. *)
Definition get_transcript_words (text : string) : list string :=
  merge_sort String.le (elements (found_keywords text)).

(** ** Numbers *)

Local Open Scope Q_scope.

(** The nearest integer, ties to the even one. *)
Definition round_half_even (x : Q) : Z :=
  let f := Qfloor x in
  match Qcompare (x - inject_Z f) (1 # 2) with
  | Lt => f
  | Gt => (f + 1)%Z
  | Eq => if Z.even f then f else (f + 1)%Z
  end.

(** [round(x, 1)], on the exact rational: where the double of the code is
    not the rational itself and the rational is a tie, the code can round
    to the other neighbouring tenth. *)
Definition round1 (x : Q) : Q := Qred (round_half_even (x * 10) # 10).

(** [s > best] *)
Definition Qgtb (s best : Q) : bool := negb (Qle_bool s best).

#[global] Instance Qeq_decision (x y : Q) : Decision (x == y) := Qeq_dec x y.

(** ** Exceptions *)

Inductive exn : Type :=
  | ZeroDivisionError
  | OSError.

(** A computation that returns a value or raises. *)
Inductive result (A : Type) : Type :=
  | Ok (a : A)
  | Raise (e : exn).
Arguments Ok {A} a.
Arguments Raise {A} e.

#[global] Instance result_bind : MBind result :=
  λ A B k m, match m with
             | Ok a => k a
             | Raise e => Raise e
             end.

(** [a / b] on numbers: raises on a zero divisor. *)
Definition py_div (a b : Q) : result Q :=
  if Qeq_bool b 0 then Raise ZeroDivisionError else Ok (a / b).

(** [len(l)] as a number. *)
Definition len {A : Type} (l : list A) : Q := inject_Z (Z.of_nat (length l)).

(** ** The keyword folder *)

(** What opening and reading one file gives: an exception (which the loop
    catches), or the lines of the file, each with its line terminator. *)
Inductive file_content : Type :=
  | Unreadable
  | Lines (lines : list string).

Record dir_entry : Type := DirEntry {
  file_name : string;
  content : file_content
}.

(** [os.path.isdir] is false; or it is true and [os.listdir] raises; or the
    directory lists its entries, in the order of [os.listdir]. *)
Inductive folder : Type :=
  | NotADirectory
  | Unlistable
  | Listing (entries : list dir_entry).

(** ** STEP 3: matching the extracted keywords with the diseases *)

(** One tuple of [results]: (disease_name, final, fuzzy, exact), the three
    numbers rounded to one decimal. *)
Record match_result : Type := MatchResult {
  disease : string;
  final : Q;
  fuzzy : Q;
  exact : Q
}.

Definition stop_tokens : gset string :=
  list_to_set
    [ "a"; "an"; "the"; "is"; "it"; "i"; "me"; "my"; "we"; "you"; "he";
      "she"; "they"; "small"; "large" ].

(** [[k for k in extracted_keywords if len(k) >= 3 and k not in stop_tokens]] *)
Definition extract (extracted_keywords : list string) : list string :=
  filter (λ k, (3 <= String.length k)%nat ∧ (k ∉ stop_tokens)) extracted_keywords.

(** [[line.strip().lower() for line in f if line.strip()]] *)
Definition disease_keywords (lines : list string) : list string :=
  map (λ line, Text.lower (Text.strip line))
      (filter (λ line, Text.strip line ≠ EmptyString) lines).

(** [[dk for dk in disease_keywords if len(dk) >= 3]] *)
Definition keywords_long (keywords : list string) : list string :=
  filter (λ dk, (3 <= String.length dk)%nat) keywords.

(** [sorted(results, key=lambda x: x[1], reverse=True)]: a stable sort,
    larger keys first; elements with equal keys keep their order. *)
Fixpoint insert_desc {A : Type} (key : A -> Q) (x : A) (l : list A) : list A :=
  match l with
  | [] => [x]
  | y :: l' =>
      if Qgtb (key y) (key x) then y :: insert_desc key x l' else x :: l
  end.

Definition sorted_desc {A : Type} (key : A -> Q) (l : list A) : list A :=
  foldr (insert_desc key) [] l.

(** [a] may stand before [b] in a list sorted by decreasing key. *)
Definition key_ge {A : Type} (key : A -> Q) (a b : A) : Prop := key b <= key a.

(** The largest number of a non-empty list. *)
Definition Qmaximum (l : list Q) : Q :=
  match l with
  | [] => 0
  | x :: l' => fold_left Qmax l' x
  end.

Definition Qsum (l : list Q) : Q := foldr Qplus 0 l.

Section Matcher.

(** [fuzz.partial_ratio] *)
Variable partial_ratio : string -> string -> Q.

(** The inner loop: the best score of [dk] against the transcript words. *)
Definition best_score (extracted : list string) (dk : string) : Q :=
  fold_left
    (λ best ek, let s := partial_ratio ek dk in if Qgtb s best then s else best)
    extracted 0.

(** The outer loop: [sum_best]. *)
Definition sum_best (extracted long : list string) : Q :=
  fold_left (λ acc dk, acc + best_score extracted dk) long 0.

Definition avg_fuzzy (extracted long : list string) : result Q :=
  match long with
  | [] => Ok 0
  | _ => py_div (sum_best extracted long) (len long)
  end.

Definition exact_matches (transcript_text : string) (long : list string) : Z :=
  fold_left
    (λ n dk, if Text.search dk transcript_text then (n + 1)%Z else n)
    long 0%Z.

Definition exact_coverage (transcript_text : string) (long : list string)
  : result Q :=
  q ← py_div (inject_Z (exact_matches transcript_text long))
             (inject_Z (Z.max 1 (Z.of_nat (length long))));
  Ok (q * 100).

(** The body of the loop for one readable [.txt] file. *)
Definition score_file (extracted : list string) (transcript_text : string)
    (disease_name : string) (keywords : list string) : result match_result :=
  let long := keywords_long keywords in
  af ← avg_fuzzy extracted long;
  ec ← exact_coverage transcript_text long;
  let final_score := (65 # 100) * af + (35 # 100) * ec in
  Ok (MatchResult disease_name (round1 final_score) (round1 af) (round1 ec)).

(** The loop over [os.listdir(keyword_folder)]. *)
Fixpoint scan (extracted : list string) (transcript_text : string)
    (entries : list dir_entry) : result (list match_result) :=
  match entries with
  | [] => Ok []
  | e :: rest =>
      if negb (Text.endswith ".txt" (file_name e)) then
        scan extracted transcript_text rest
      else
        match content e with
        | Unreadable => scan extracted transcript_text rest
        | Lines lines =>
            r ← score_file extracted transcript_text
                  (Text.remove_all ".txt" (file_name e))
                  (disease_keywords lines);
            rs ← scan extracted transcript_text rest;
            Ok (r :: rs)
        end
  end.

(** The first component of the returned pair: a name, or [None], and a
    score. *)
Definition best_match : Type := option string * Q.

Definition match_disease (extracted_keywords : list string)
    (transcript_text : string) (keyword_folder : folder)
  : result (best_match * list match_result) :=
  match extract extracted_keywords with
  | [] => Ok ((Some "NoKeywords", 0), [])
  | extracted =>
      match keyword_folder with
      | NotADirectory => Ok ((Some "KeywordFolderNotFound", 0), [])
      | Unlistable => Raise OSError
      | Listing entries =>
          results ← scan extracted transcript_text entries;
          match results with
          | [] => Ok ((Some "NoKeywordFiles", 0), [])
          | _ =>
              let sorted_results := sorted_desc final results in
              let best :=
                match sorted_results with
                | top :: _ => (Some (disease top), final top)
                | [] => (None, 0)
                end in
              Ok (best, sorted_results)
          end
      end
  end.

(** *** The values the loop computes

    The divisions of the loop body never raise (lemmas [avg_fuzzy_ok] and
    [exact_coverage_ok] below), so each sub-score is a plain number. *)

Definition fuzzy_value (extracted long : list string) : Q :=
  match long with
  | [] => 0
  | _ => sum_best extracted long / len long
  end.

Definition exact_value (transcript_text : string) (long : list string) : Q :=
  inject_Z (exact_matches transcript_text long)
  / inject_Z (Z.max 1 (Z.of_nat (length long))) * 100.

Definition score_value (extracted : list string) (transcript_text : string)
    (disease_name : string) (keywords : list string) : match_result :=
  let long := keywords_long keywords in
  let af := fuzzy_value extracted long in
  let ec := exact_value transcript_text long in
  MatchResult disease_name
    (round1 ((65 # 100) * af + (35 # 100) * ec)) (round1 af) (round1 ec).

(** The category of a directory entry: its name and keyword list, when the
    loop does not skip the entry. *)
Definition category (e : dir_entry) : option (string * list string) :=
  if Text.endswith ".txt" (file_name e) then
    match content e with
    | Unreadable => None
    | Lines lines =>
        Some (Text.remove_all ".txt" (file_name e), disease_keywords lines)
    end
  else None.

(** The categories of a folder, in enumeration order. *)
Definition categories (entries : list dir_entry)
  : list (string * list string) :=
  omap category entries.

(** [results] before sorting: one tuple per category, in enumeration order. *)
Definition category_scores (extracted : list string) (transcript_text : string)
    (entries : list dir_entry) : list match_result :=
  map (λ c, score_value extracted transcript_text c.1 c.2) (categories entries).

(** *** The fuzzy sub-score in the words of the specification

    The sum, over the phrases of the filtered keyword list, of the largest
    partial ratio of the phrase with a transcript word, divided by the
    number of phrases; zero for an empty list. *)
Definition fuzzy_spec (extracted long : list string) : Q :=
  match long with
  | [] => 0
  | _ =>
      Qsum (map (λ dk, Qmaximum (map (λ ek, partial_ratio ek dk) extracted)) long)
      / len long
  end.

End Matcher.

(** ** A reference similarity

    An instance of the similarity interface, used for the concrete runs. It
    is not the algorithm of rapidfuzz and differs from it on some inputs; on
    the strings of the runs below (equal strings, a word inside a phrase,
    strings without a common character) both give 100, 100 and 0. In the
    manner of a partial ratio: the shorter string is compared with every window of its
    length in the longer one, by the normalised Indel similarity
    [2 * lcs / (len a + len b)], scaled to 0..100; the best window counts. *)

Module Reference.

(** Length of a longest common subsequence. *)
Fixpoint lcs (a : string) : string -> nat :=
  match a with
  | EmptyString => fun _ => O
  | String x a' =>
      fix inner (b : string) : nat :=
        match b with
        | EmptyString => O
        | String y b' =>
            if Ascii.eqb x y then S (lcs a' b')
            else Nat.max (lcs a' b) (inner b')
        end
  end.

Definition ratio (a b : string) : Q :=
  match (String.length a + String.length b)%nat with
  | O => 100
  | S n => Z.of_nat (200 * lcs a b) # Pos.of_succ_nat n
  end.

Fixpoint best_window (short long : string) : Q :=
  match long with
  | EmptyString => 0
  | String _ long' =>
      let here := ratio short (String.substring 0 (String.length short) long) in
      let later := best_window short long' in
      if Qgtb here later then here else later
  end.

Definition align (short long : string) : Q :=
  match short, long with
  | EmptyString, EmptyString => 100
  | EmptyString, _ => 0
  | _, _ => best_window short long
  end.

Definition partial_ratio (a b : string) : Q :=
  if (String.length a <=? String.length b)%nat then align a b else align b a.

End Reference.

(** ** Predicates used to state further properties *)

(** A character of the ASCII alphabet. *)
Definition ascii_char (c : ascii) : bool := (Text.code c <? 128)%N.

(** A lower-case letter, a digit or the underscore. *)
Definition plain_char (c : ascii) : bool :=
  Text.is_lower c || Text.is_digit c || (Text.code c =? 95)%N.

(** The entries the loop of [match_disease] does not skip: the name ends in
    [.txt] and the file can be read. *)
Definition readable_txt (e : dir_entry) : bool :=
  Text.endswith ".txt" (file_name e) &&
  match content e with
  | Unreadable => false
  | Lines _ => true
  end.

(** ** A worked example *)

Definition sample_text : string := "I have a rash.".

Definition sample_entries : list dir_entry :=
  [ DirEntry "eczema.txt" (Lines ["rash on arm"; "bump"; "cold"]);
    DirEntry "notes.md" (Lines ["rash"]);
    DirEntry "acne.txt" Unreadable;
    DirEntry "hives.txt" (Lines [" Rash "; ""; "it"]);
    DirEntry "empty.txt" (Lines []);
    DirEntry "blank.txt" (Lines ["  "; "ab"]) ].

Definition sample_best : best_match := (Some "hives", 100).

Definition sample_eczema : match_result :=
  MatchResult "eczema" (217 # 10) (333 # 10) 0.

Definition sample_ranked : list match_result :=
  [ MatchResult "hives" 100 100 100;
    sample_eczema;
    MatchResult "empty" 0 0 0;
    MatchResult "blank" 0 0 0 ].

(** * Properties *)

(** ** Facts about the text primitives *)

Example split_demo :
  Text.split (String "009" ("  itchy  red" +:+ String "010" "rash "))
  = ["itchy"; "red"; "rash"].
Proof. reflexivity. Qed.

Example strip_demo :
  Text.strip (" Dry  Skin " +:+ String "013" (String "010" "")) = "Dry  Skin".
Proof. reflexivity. Qed.

Example clean_text_demo : clean_text "It's RED, isn't it?" = "its red isnt it".
Proof. reflexivity. Qed.

Example endswith_demo :
  Text.endswith ".txt" "acne.txt" = true ∧ Text.endswith ".txt" "notes.md" = false
  ∧ Text.endswith ".txt" "txt" = false.
Proof. by split_and!. Qed.

Example remove_all_demo :
  Text.remove_all ".txt" "acne.txt" = "acne"
  ∧ Text.remove_all ".txt" "a.txt.txt" = "a"
  ∧ Text.remove_all ".txt" ".t.txtxt" = ".txt".
Proof. by split_and!. Qed.

Example search_demo :
  Text.search "dry skin" "very dry skin." = true
  ∧ Text.search "rash" "Rash" = false.
Proof. by split_and!. Qed.

Section TextFacts.
Import Text.

Lemma lower_char_not_upper c : is_upper (lower_char c) = false.
Proof.
  unfold lower_char. destruct (is_upper c) eqn:E; [|done].
  destruct c as [[] [] [] [] [] [] [] []]; vm_compute in E |- *; congruence.
Qed.

Lemma lower_char_word c : is_word (lower_char c) = is_word c.
Proof. destruct c as [[] [] [] [] [] [] [] []]; reflexivity. Qed.

Lemma lower_char_space c : is_space (lower_char c) = is_space c.
Proof. destruct c as [[] [] [] [] [] [] [] []]; reflexivity. Qed.

Lemma all_chars_impl (p q : ascii -> bool) s :
  (forall c, p c = true -> q c = true) ->
  all_chars p s = true -> all_chars q s = true.
Proof.
  intros Hpq. induction s as [|c s IH]; simpl; [done|].
  rewrite !andb_true_iff. intros [? ?]. auto.
Qed.

Lemma append_nil_l s : String.append EmptyString s = s.
Proof. reflexivity. Qed.

Lemma append_cons c w s :
  String.append (String c w) s = String c (String.append w s).
Proof. reflexivity. Qed.

Lemma append_empty_r w : String.append w EmptyString = w.
Proof.
  induction w as [|c w IH]; [done|]. by rewrite append_cons, IH.
Qed.

Lemma all_chars_app p s t :
  all_chars p (String.append s t) = all_chars p s && all_chars p t.
Proof.
  induction s as [|c s IH]; [done|].
  rewrite append_cons. simpl. by rewrite IH, andb_assoc.
Qed.

Lemma clean_text_chars text : all_chars clean_char (clean_text text) = true.
Proof.
  unfold clean_text. induction text as [|c s IH]; simpl; [done|].
  destruct (is_word (lower_char c) || is_space (lower_char c)) eqn:E;
    [|done].
  simpl. rewrite IH, andb_true_r. unfold clean_char.
  by rewrite lower_char_not_upper, E.
Qed.

Lemma lower_fixed s :
  all_chars (fun c => negb (is_upper c)) s = true -> lower s = s.
Proof.
  induction s as [|c s IH]; simpl; [done|].
  rewrite andb_true_iff, negb_true_iff. intros [Hc Hs].
  unfold lower_char. rewrite Hc. by rewrite IH.
Qed.

Lemma strip_punct_fixed s :
  all_chars (fun c => is_word c || is_space c) s = true -> strip_punct s = s.
Proof.
  induction s as [|c s IH]; simpl; [done|].
  rewrite andb_true_iff. intros [Hc Hs]. rewrite Hc. by rewrite IH.
Qed.

Lemma clean_text_fixed s : all_chars clean_char s = true -> clean_text s = s.
Proof.
  intros H. unfold clean_text. rewrite lower_fixed.
  - apply strip_punct_fixed. revert H. apply all_chars_impl.
    unfold clean_char. intros c. rewrite andb_true_iff. tauto.
  - revert H. apply all_chars_impl.
    unfold clean_char. intros c. rewrite andb_true_iff. tauto.
Qed.

Lemma Forall_push_word (P : string -> Prop) w ws :
  (w ≠ EmptyString -> P w) -> Forall P ws -> Forall P (push_word w ws).
Proof. destruct w; simpl; [done|]. intros Hw Hws. constructor; auto. Qed.

Lemma split_go_tokens p s :
  all_chars p s = true ->
  all_chars (fun c => p c && not_space c) (split_go s).1 = true ∧
  Forall (is_token p) (split_go s).2.
Proof.
  induction s as [|c s IH]; simpl; [by split|].
  rewrite andb_true_iff. intros [Hc Hs]. destruct (IH Hs) as [Hw Hws].
  destruct (split_go s) as [w ws]. simpl in *.
  destruct (is_space c) eqn:E; simpl.
  - split; [done|]. apply Forall_push_word; [|done]. by split.
  - split; [|done]. apply andb_true_iff. split; [|done].
    unfold not_space. by rewrite Hc, E.
Qed.

Lemma split_tokens p s : all_chars p s = true -> Forall (is_token p) (split s).
Proof.
  intros H. destruct (split_go_tokens p s H) as [Hw Hws].
  unfold split. destruct (split_go s) as [w ws]. simpl in *.
  apply Forall_push_word; [|done]. by split.
Qed.

Lemma all_words_tokens text : Forall (is_token clean_char) (all_words text).
Proof. apply split_tokens, clean_text_chars. Qed.

Lemma split_go_app w s :
  all_chars not_space w = true ->
  split_go (String.append w s)
  = (String.append w (split_go s).1, (split_go s).2).
Proof.
  induction w as [|c w IH]; simpl; intros H.
  - rewrite !append_nil_l. by destruct (split_go s).
  - apply andb_true_iff in H as [Hc Hw]. rewrite !append_cons. simpl.
    rewrite (IH Hw).
    unfold not_space in Hc. apply negb_true_iff in Hc. by rewrite Hc.
Qed.

Lemma split_word w :
  w ≠ EmptyString -> all_chars not_space w = true -> split w = [w].
Proof.
  intros Hne H. unfold split.
  rewrite <- (append_empty_r w) at 1. rewrite (split_go_app _ _ H). simpl.
  rewrite append_empty_r. by destruct w.
Qed.

Lemma split_word_space w s :
  w ≠ EmptyString -> all_chars not_space w = true ->
  split (String.append w (String " "%char s)) = w :: split s.
Proof.
  intros Hne H. unfold split at 1. rewrite (split_go_app _ _ H). simpl.
  unfold split. destruct (split_go s) as [u us]. simpl.
  rewrite append_empty_r. by destruct w.
Qed.

Lemma join_cons w w' ws :
  join (w :: w' :: ws)
  = String.append w (String " "%char (join (w' :: ws))).
Proof. reflexivity. Qed.

Lemma split_join ws :
  Forall (fun w => w ≠ EmptyString ∧ all_chars not_space w = true) ws ->
  split (join ws) = ws.
Proof.
  induction 1 as [|w ws [Hne Hw] Hws IH]; [done|].
  destruct ws as [|w' ws'].
  - by apply split_word.
  - rewrite join_cons, split_word_space by done. by rewrite IH.
Qed.

Lemma join_chars p ws :
  p " "%char = true ->
  Forall (fun w => all_chars p w = true) ws -> all_chars p (join ws) = true.
Proof.
  intros Hsp. induction 1 as [|w ws Hw Hws IH]; [done|].
  destruct ws as [|w' ws']; [done|].
  rewrite join_cons, all_chars_app. simpl. by rewrite Hw, Hsp, IH.
Qed.

End TextFacts.

(** ** Tokenisation *)

Example words_demo :
  get_transcript_words "I have a Rash, and the rash is red; it's itchy!"
  = ["itchy"; "rash"; "red"].
Proof. vm_compute. reflexivity. Qed.

Lemma filter_all {A : Type} (P : A -> Prop) `{!∀ x, Decision (P x)} (l : list A) :
  Forall P l -> filter P l = l.
Proof.
  induction 1 as [|x l Hx Hl IH]; [done|].
  rewrite filter_cons, decide_True by done. by rewrite IH.
Qed.

Lemma get_transcript_words_perm text :
  get_transcript_words text ≡ₚ elements (found_keywords text).
Proof. apply merge_sort_Permutation. Qed.

Lemma elem_of_get_transcript_words text w :
  w ∈ get_transcript_words text ↔
  w ∈ all_words text ∧ (w ∉ stop_words) ∧ (2 < String.length w)%nat.
Proof.
  rewrite get_transcript_words_perm, elem_of_elements. unfold found_keywords.
  rewrite elem_of_list_to_set, list_elem_of_filter. tauto.
Qed.

Lemma get_transcript_words_sorted text :
  Sorted String.le (get_transcript_words text).
Proof. apply (Sorted_merge_sort String.le). Qed.

Lemma get_transcript_words_nodup text : NoDup (get_transcript_words text).
Proof. rewrite get_transcript_words_perm. apply NoDup_elements. Qed.

(** Sorting the set of an already sorted, duplicate-free list of strings
    gives the list back. *)
Lemma sorted_set_fixed (l : list string) :
  Sorted String.le l -> NoDup l ->
  merge_sort String.le (elements (list_to_set l : gset string)) = l.
Proof.
  intros Hs Hn. apply (Sorted_unique String.le); [|done|].
  - apply (Sorted_merge_sort String.le).
  - rewrite merge_sort_Permutation. by apply elements_list_to_set.
Qed.

(** C8. No word returned by [get_transcript_words] is a stop word, none has
    length 2 or less, and the returned list is the sorted set of the unique
    remaining words: increasing, without duplicates, and made of exactly
    the words of the cleaned text that pass the two filters. *)
Theorem tokenize_stop_word_exclusion (text : string) :
  (∀ w, w ∈ get_transcript_words text → w ∉ stop_words) ∧
  (∀ w, w ∈ get_transcript_words text → ¬ (String.length w ≤ 2)%nat) ∧
  Sorted String.le (get_transcript_words text) ∧
  NoDup (get_transcript_words text) ∧
  (∀ w, w ∈ get_transcript_words text ↔
        w ∈ all_words text ∧ (w ∉ stop_words) ∧ ¬ (String.length w ≤ 2)%nat).
Proof.
  split_and!.
  - intros w Hw. apply elem_of_get_transcript_words in Hw. tauto.
  - intros w Hw. apply elem_of_get_transcript_words in Hw. lia.
  - apply get_transcript_words_sorted.
  - apply get_transcript_words_nodup.
  - intros w. rewrite elem_of_get_transcript_words.
    split; intros (? & ? & ?); split_and!; try done; lia.
Qed.

Lemma get_transcript_words_tokens text :
  Forall (is_token clean_char) (get_transcript_words text).
Proof.
  apply Forall_forall. intros w Hw.
  apply elem_of_get_transcript_words in Hw as [Hw _].
  pose proof (all_words_tokens text) as Hall.
  rewrite Forall_forall in Hall. by apply Hall.
Qed.

(** C9. Tokenising the words of [get_transcript_words text], joined by
    single spaces, gives the same words again. *)
Theorem tokenize_idempotent (text : string) :
  get_transcript_words (Text.join (get_transcript_words text))
  = get_transcript_words text.
Proof.
  set (out := get_transcript_words text).
  assert (Htok : Forall (is_token clean_char) out)
    by apply get_transcript_words_tokens.
  assert (Hclean : clean_text (Text.join out) = Text.join out).
  { apply clean_text_fixed, join_chars; [done|].
    eapply Forall_impl; [exact Htok|]. intros w [_ Hw]. revert Hw.
    apply all_chars_impl. intros c. rewrite andb_true_iff. tauto. }
  assert (Hwords : all_words (Text.join out) = out).
  { unfold all_words. rewrite Hclean. apply split_join.
    eapply Forall_impl; [exact Htok|]. intros w [Hne Hw]. split; [done|].
    revert Hw. apply all_chars_impl. intros c. rewrite andb_true_iff. tauto. }
  unfold get_transcript_words at 1, found_keywords. rewrite Hwords.
  rewrite filter_all.
  - apply sorted_set_fixed.
    + apply get_transcript_words_sorted.
    + apply get_transcript_words_nodup.
  - apply Forall_forall. intros w Hw.
    apply elem_of_get_transcript_words in Hw. tauto.
Qed.

(** ** Rounding *)

Example round1_tie_down : round1 (1625 # 100) == 162 # 10.
Proof. vm_compute. reflexivity. Qed.

Example round1_tie_up : round1 (1635 # 100) == 164 # 10.
Proof. vm_compute. reflexivity. Qed.

Example round1_third : round1 (100 # 3) = 333 # 10.
Proof. vm_compute. reflexivity. Qed.

Lemma round_half_even_near (x : Q) :
  inject_Z (round_half_even x) - (1 # 2) <= x
  ∧ x <= inject_Z (round_half_even x) + (1 # 2).
Proof.
  unfold round_half_even.
  pose proof (Qfloor_le x) as Hlo. pose proof (Qlt_floor x) as Hhi.
  rewrite inject_Z_plus in Hhi. change (inject_Z 1) with 1 in Hhi.
  destruct (Qcompare (x - inject_Z (Qfloor x)) (1 # 2)) eqn:E.
  - apply Qeq_alt in E.
    destruct (Z.even (Qfloor x)); rewrite ?inject_Z_plus;
      change (inject_Z 1) with 1; split; lra.
  - apply Qlt_alt in E. split; lra.
  - apply Qgt_alt in E. rewrite inject_Z_plus.
    change (inject_Z 1) with 1. split; lra.
Qed.

Lemma round_half_even_between (x : Q) (a b : Z) :
  inject_Z a <= x -> x <= inject_Z b ->
  (a <= round_half_even x <= b)%Z.
Proof.
  intros Ha Hb.
  assert (Hfa : (a <= Qfloor x)%Z).
  { rewrite <- (Qfloor_Z a). by apply Qfloor_resp_le. }
  assert (Hfb : (Qfloor x <= b)%Z).
  { rewrite <- (Qfloor_Z b). by apply Qfloor_resp_le. }
  unfold round_half_even.
  destruct (Qcompare (x - inject_Z (Qfloor x)) (1 # 2)) eqn:E.
  - apply Qeq_alt in E. destruct (Z.even (Qfloor x)); [lia|].
    destruct (Z.eq_dec (Qfloor x) b) as [Heq|Hne]; [|lia].
    rewrite Heq in E. lra.
  - lia.
  - apply Qgt_alt in E.
    destruct (Z.eq_dec (Qfloor x) b) as [Heq|Hne]; [|lia].
    rewrite Heq in E. lra.
Qed.

Lemma round_half_even_compat (x y : Q) :
  x == y -> round_half_even x = round_half_even y.
Proof.
  intros H. unfold round_half_even.
  rewrite (Qfloor_comp _ _ H).
  assert (Hc : Qcompare (x - inject_Z (Qfloor y)) (1 # 2)
               = Qcompare (y - inject_Z (Qfloor y)) (1 # 2)).
  { apply Qcompare_comp; [by rewrite H | reflexivity]. }
  by rewrite Hc.
Qed.

Lemma round1_value (x : Q) :
  round1 x == inject_Z (round_half_even (x * 10)) / 10.
Proof. unfold round1. rewrite Qred_correct. apply Qmake_Qdiv. Qed.

Lemma round1_compat (x y : Q) : x == y -> round1 x = round1 y.
Proof.
  intros H. unfold round1.
  rewrite (round_half_even_compat (x * 10) (y * 10)); [done|]. by rewrite H.
Qed.

(** The rounded value is within one twentieth of the number. *)
Lemma round1_near (x : Q) :
  round1 x - (1 # 20) <= x ∧ x <= round1 x + (1 # 20).
Proof.
  rewrite round1_value.
  destruct (round_half_even_near (x * 10)) as [Hlo Hhi].
  set (r := inject_Z (round_half_even (x * 10))) in *.
  assert (Hr : r / 10 == r * (1 # 10)) by (field).
  rewrite Hr. split; lra.
Qed.

Lemma round1_between (x : Q) : 0 <= x -> x <= 100 -> 0 <= round1 x ∧ round1 x <= 100.
Proof.
  intros H0 H100. rewrite round1_value.
  destruct (round_half_even_between (x * 10) 0 1000) as [Hlo Hhi].
  { change (inject_Z 0) with 0. lra. }
  { change (inject_Z 1000) with 1000. lra. }
  set (n := round_half_even (x * 10)) in *.
  assert (Hr : inject_Z n / 10 == inject_Z n * (1 # 10)) by (field).
  rewrite Hr.
  assert (0 <= inject_Z n) by (change 0 with (inject_Z 0); by rewrite <- Zle_Qle).
  assert (inject_Z n <= 1000)
    by (change 1000 with (inject_Z 1000); by rewrite <- Zle_Qle).
  split; lra.
Qed.

(** ** Division *)

Lemma py_div_pos (a b : Q) : 0 < b -> py_div a b = Ok (a / b).
Proof.
  intros Hb. unfold py_div. destruct (Qeq_bool b 0) eqn:E; [|done].
  apply Qeq_bool_eq in E. lra.
Qed.

Lemma len_nonneg {A : Type} (l : list A) : 0 <= len l.
Proof.
  unfold len. change 0 with (inject_Z 0). rewrite <- Zle_Qle. lia.
Qed.

Lemma len_cons {A : Type} (x : A) (l : list A) : len (x :: l) == len l + 1.
Proof.
  unfold len. simpl length. rewrite Nat2Z.inj_succ, <- Z.add_1_r.
  by rewrite inject_Z_plus.
Qed.

Lemma len_pos {A : Type} (l : list A) : l ≠ [] -> 0 < len l.
Proof.
  destruct l as [|x l]; [done|]. intros _.
  rewrite len_cons. pose proof (len_nonneg l). lra.
Qed.

(** ** Maximum and sum of a list of numbers *)

Lemma fold_Qmax_le (l : list Q) (b : Q) :
  b <= fold_left Qmax l b ∧ Forall (fun x => x <= fold_left Qmax l b) l.
Proof.
  revert b. induction l as [|x l IH]; intros b; simpl.
  - split; [lra | constructor].
  - destruct (IH (Qmax b x)) as [Hb Hl].
    pose proof (Q.le_max_l b x). pose proof (Q.le_max_r b x).
    split; [lra|]. constructor; [lra | done].
Qed.

Lemma fold_Qmax_attained (l : list Q) (b : Q) :
  fold_left Qmax l b == b ∨ Exists (fun x => fold_left Qmax l b == x) l.
Proof.
  revert b. induction l as [|x l IH]; intros b; simpl.
  - left. reflexivity.
  - destruct (IH (Qmax b x)) as [H|H].
    + destruct (Q.max_spec b x) as [[_ Hm]|[_ Hm]].
      * right. constructor. by rewrite H.
      * left. by rewrite H.
    + right. by constructor 2.
Qed.

(** [Qmaximum] is the maximum: a member of the list that bounds the others. *)
Lemma Qmaximum_spec (l : list Q) :
  l ≠ [] ->
  Exists (fun x => Qmaximum l == x) l ∧ Forall (fun x => x <= Qmaximum l) l.
Proof.
  destruct l as [|x l]; [done|]. intros _. simpl.
  destruct (fold_Qmax_le l x) as [Hx Hl]. split.
  - destruct (fold_Qmax_attained l x) as [H|H];
      [by constructor | by constructor 2].
  - by constructor.
Qed.

Lemma fold_Qmax_compat (l : list Q) (a b : Q) :
  a == b -> fold_left Qmax l a == fold_left Qmax l b.
Proof.
  revert a b. induction l as [|x l IH]; intros a b H; simpl; [done|].
  apply IH. by rewrite H.
Qed.

(** ** The scoring loop *)

Lemma Qgtb_spec (s best : Q) : if Qgtb s best then best < s else s <= best.
Proof.
  unfold Qgtb. destruct (Qle_bool s best) eqn:E; simpl.
  - by apply Qle_bool_iff.
  - apply Qnot_le_lt. intros H. apply Qle_bool_iff in H. congruence.
Qed.

Lemma exact_matches_fold (text : string) (long : list string) (n : Z) :
  fold_left (λ n dk, if Text.search dk text then (n + 1)%Z else n) long n
  = (n + Z.of_nat (length (filter (λ dk, Text.search dk text = true) long)))%Z.
Proof.
  revert n. induction long as [|dk long IH]; intros n; simpl; [lia|].
  rewrite IH, filter_cons. destruct (Text.search dk text) eqn:E.
  - rewrite decide_True by done. simpl length. lia.
  - rewrite decide_False by congruence. lia.
Qed.

(** The match count is the number of phrases found in the transcript. *)
Lemma exact_matches_count (text : string) (long : list string) :
  exact_matches text long
  = Z.of_nat (length (filter (λ dk, Text.search dk text = true) long)).
Proof. unfold exact_matches. by rewrite exact_matches_fold. Qed.

Lemma exact_matches_range (text : string) (long : list string) :
  (0 <= exact_matches text long <= Z.of_nat (length long))%Z.
Proof.
  rewrite exact_matches_count.
  pose proof (length_filter (λ dk, Text.search dk text = true) long). lia.
Qed.

Lemma exact_divisor_pos (long : list string) :
  0 < inject_Z (Z.max 1 (Z.of_nat (length long))).
Proof. change 0 with (inject_Z 0). rewrite <- Zlt_Qlt. lia. Qed.

(** The guarded division of the exact coverage never raises. *)
Lemma exact_coverage_ok (text : string) (long : list string) :
  exact_coverage text long = Ok (exact_value text long).
Proof.
  unfold exact_coverage. by rewrite py_div_pos by apply exact_divisor_pos.
Qed.

Lemma exact_value_range (text : string) (long : list string) :
  0 <= exact_value text long ∧ exact_value text long <= 100.
Proof.
  unfold exact_value.
  pose proof (exact_matches_range text long) as [Hlo Hhi].
  pose proof (exact_divisor_pos long) as Hd.
  set (m := exact_matches text long) in *.
  set (d := Z.max 1 (Z.of_nat (length long))) in *.
  assert (Hm0 : 0 <= inject_Z m)
    by (change 0 with (inject_Z 0); by rewrite <- Zle_Qle).
  assert (Hmd : inject_Z m <= inject_Z d) by (rewrite <- Zle_Qle; lia).
  assert (H0 : 0 <= inject_Z m / inject_Z d).
  { apply Qle_shift_div_l; [done|]. lra. }
  assert (H1 : inject_Z m / inject_Z d <= 1).
  { apply Qle_shift_div_r; [done|]. lra. }
  split; lra.
Qed.

Section MatcherFacts.

Variable partial_ratio : string -> string -> Q.

(** The documented range of the similarity. *)
Hypothesis partial_ratio_range :
  ∀ a b, 0 <= partial_ratio a b ∧ partial_ratio a b <= 100.

Lemma best_fold_max (extracted : list string) (dk : string) (b : Q) :
  fold_left
    (λ best ek, let s := partial_ratio ek dk in if Qgtb s best then s else best)
    extracted b
  == fold_left Qmax (map (λ ek, partial_ratio ek dk) extracted) b.
Proof.
  revert b. induction extracted as [|ek extracted IH]; intros b; simpl.
  - reflexivity.
  - rewrite IH. apply fold_Qmax_compat.
    pose proof (Qgtb_spec (partial_ratio ek dk) b) as H.
    destruct (Qgtb (partial_ratio ek dk) b).
    + symmetry. apply Q.max_r. lra.
    + symmetry. by apply Q.max_l.
Qed.

(** The inner loop finds the largest partial ratio of the phrase. *)
Lemma best_score_is_max (extracted : list string) (dk : string) :
  extracted ≠ [] ->
  best_score partial_ratio extracted dk
  == Qmaximum (map (λ ek, partial_ratio ek dk) extracted).
Proof.
  destruct extracted as [|ek extracted]; [done|]. intros _.
  unfold best_score. rewrite best_fold_max. simpl.
  apply fold_Qmax_compat. apply Q.max_r.
  apply partial_ratio_range.
Qed.

Lemma best_fold_range (extracted : list string) (dk : string) (b : Q) :
  0 <= b -> b <= 100 ->
  0 <= fold_left
         (λ best ek, let s := partial_ratio ek dk in
                     if Qgtb s best then s else best)
         extracted b
  ∧ fold_left
      (λ best ek, let s := partial_ratio ek dk in
                  if Qgtb s best then s else best)
      extracted b <= 100.
Proof.
  revert b. induction extracted as [|ek extracted IH]; intros b H0 H1; simpl.
  - done.
  - destruct (partial_ratio_range ek dk) as [? ?].
    destruct (Qgtb (partial_ratio ek dk) b); by apply IH.
Qed.

Lemma best_score_range (extracted : list string) (dk : string) :
  0 <= best_score partial_ratio extracted dk
  ∧ best_score partial_ratio extracted dk <= 100.
Proof. apply best_fold_range; lra. Qed.

Lemma sum_fold (extracted long : list string) (a : Q) :
  fold_left (λ acc dk, acc + best_score partial_ratio extracted dk) long a
  == a + Qsum (map (best_score partial_ratio extracted) long).
Proof.
  revert a. induction long as [|dk long IH]; intros a; simpl.
  - lra.
  - rewrite IH. lra.
Qed.

Lemma sum_best_is_sum (extracted long : list string) :
  sum_best partial_ratio extracted long
  == Qsum (map (best_score partial_ratio extracted) long).
Proof. unfold sum_best. rewrite sum_fold. lra. Qed.

Lemma Qsum_best_range (extracted long : list string) :
  0 <= Qsum (map (best_score partial_ratio extracted) long)
  ∧ Qsum (map (best_score partial_ratio extracted) long) <= 100 * len long.
Proof.
  induction long as [|dk long [IH0 IH1]].
  - change (0 <= 0 ∧ 0 <= 100 * 0). lra.
  - change (Qsum (map (best_score partial_ratio extracted) (dk :: long)))
      with (best_score partial_ratio extracted dk
            + Qsum (map (best_score partial_ratio extracted) long)).
    rewrite len_cons.
    destruct (best_score_range extracted dk) as [? ?]. split; lra.
Qed.

Lemma Qsum_max_ext (extracted long : list string) :
  extracted ≠ [] ->
  Qsum (map (best_score partial_ratio extracted) long)
  == Qsum (map (λ dk, Qmaximum (map (λ ek, partial_ratio ek dk) extracted))
               long).
Proof.
  intros Hne. induction long as [|dk long IH]; simpl; [reflexivity|].
  by rewrite IH, best_score_is_max.
Qed.

(** The division of the fuzzy average never raises. *)
Lemma avg_fuzzy_ok (extracted long : list string) :
  avg_fuzzy partial_ratio extracted long
  = Ok (fuzzy_value partial_ratio extracted long).
Proof.
  destruct long as [|dk long]; [done|].
  unfold avg_fuzzy, fuzzy_value. by apply py_div_pos, len_pos.
Qed.

Lemma fuzzy_value_range (extracted long : list string) :
  0 <= fuzzy_value partial_ratio extracted long
  ∧ fuzzy_value partial_ratio extracted long <= 100.
Proof.
  destruct long as [|dk long]; [simpl; lra|].
  unfold fuzzy_value.
  assert (Hlen : 0 < len (dk :: long)) by by apply len_pos.
  destruct (Qsum_best_range extracted (dk :: long)) as [H0 H1].
  rewrite <- sum_best_is_sum in H0, H1. split.
  - apply Qle_shift_div_l; [done|]. lra.
  - apply Qle_shift_div_r; [done|]. lra.
Qed.

Lemma fuzzy_value_spec (extracted long : list string) :
  extracted ≠ [] ->
  fuzzy_value partial_ratio extracted long
  == fuzzy_spec partial_ratio extracted long.
Proof.
  intros Hne. destruct long as [|dk long]; [reflexivity|].
  unfold fuzzy_value, fuzzy_spec.
  by rewrite sum_best_is_sum, Qsum_max_ext.
Qed.

Lemma score_file_ok (extracted : list string) (text name : string)
    (keywords : list string) :
  score_file partial_ratio extracted text name keywords
  = Ok (score_value partial_ratio extracted text name keywords).
Proof.
  unfold score_file. by rewrite avg_fuzzy_ok, exact_coverage_ok.
Qed.

Lemma scan_ok (extracted : list string) (text : string)
    (entries : list dir_entry) :
  scan partial_ratio extracted text entries
  = Ok (category_scores partial_ratio extracted text entries).
Proof.
  unfold category_scores, categories.
  induction entries as [|e entries IH]; [done|].
  simpl. unfold category at 1.
  destruct (Text.endswith ".txt" (file_name e)); simpl; [|done].
  destruct (content e) as [|lines]; [done|].
  by rewrite score_file_ok, IH.
Qed.

End MatcherFacts.

(** ** The stable descending sort *)

Section SortFacts.

Context {A : Type} (key : A -> Q).

#[local] Instance key_ge_trans : Transitive (key_ge key).
Proof. unfold key_ge. intros a b c Hab Hbc. lra. Qed.

Lemma insert_desc_perm (x : A) (l : list A) : insert_desc key x l ≡ₚ x :: l.
Proof.
  induction l as [|y l IH]; simpl; [done|].
  destruct (Qgtb (key y) (key x)); [|done].
  rewrite IH. apply Permutation_swap.
Qed.

Lemma sorted_desc_perm (l : list A) : sorted_desc key l ≡ₚ l.
Proof.
  induction l as [|x l IH]; simpl; [done|].
  by rewrite insert_desc_perm, IH.
Qed.

Lemma insert_desc_hd (a x : A) (l : list A) :
  key_ge key a x -> HdRel (key_ge key) a l ->
  HdRel (key_ge key) a (insert_desc key x l).
Proof.
  intros Hax Hal. destruct l as [|y l]; simpl.
  - by constructor.
  - destruct (Qgtb (key y) (key x)); constructor; [|done].
    by inversion Hal.
Qed.

Lemma insert_desc_sorted (x : A) (l : list A) :
  Sorted (key_ge key) l -> Sorted (key_ge key) (insert_desc key x l).
Proof.
  induction 1 as [|y l Hl IH Hy]; simpl.
  - by repeat constructor.
  - pose proof (Qgtb_spec (key y) (key x)) as Hcmp.
    destruct (Qgtb (key y) (key x)).
    + constructor; [done|]. apply insert_desc_hd; [|done].
      unfold key_ge. lra.
    + constructor; [by constructor|]. by constructor.
Qed.

Lemma sorted_desc_sorted (l : list A) :
  StronglySorted (key_ge key) (sorted_desc key l).
Proof.
  apply Sorted_StronglySorted; [apply _|].
  induction l as [|x l IH]; simpl; [constructor|].
  by apply insert_desc_sorted.
Qed.

Lemma insert_desc_filter (q : Q) (x : A) (l : list A) :
  filter (λ r, key r == q) (insert_desc key x l)
  = filter (λ r, key r == q) (x :: l).
Proof.
  induction l as [|y l IH]; simpl; [done|].
  pose proof (Qgtb_spec (key y) (key x)) as Hcmp.
  destruct (Qgtb (key y) (key x)); [|done].
  rewrite !filter_cons in *. rewrite IH.
  destruct (decide (key y == q)) as [Hy|Hy]; [|done].
  destruct (decide (key x == q)) as [Hx|Hx]; [|done].
  rewrite Hy, Hx in Hcmp. lra.
Qed.

(** Stability: for each key, the elements with that key come out in the
    order they went in. *)
Lemma sorted_desc_stable (q : Q) (l : list A) :
  filter (λ r, key r == q) (sorted_desc key l) = filter (λ r, key r == q) l.
Proof.
  induction l as [|x l IH]; simpl; [done|].
  rewrite insert_desc_filter, !filter_cons. by rewrite IH.
Qed.

Lemma sorted_desc_nil (l : list A) : sorted_desc key l = [] -> l = [].
Proof.
  intros H. pose proof (sorted_desc_perm l) as Hp. rewrite H in Hp.
  by apply Permutation_nil in Hp.
Qed.

End SortFacts.

(** ** The reference similarity stays in range *)

Section ReferenceFacts.
Import Reference.

Lemma lcs_cons_cons (x y : ascii) (a b : string) :
  lcs (String x a) (String y b)
  = if Ascii.eqb x y then S (lcs a b)
    else Nat.max (lcs a (String y b)) (lcs (String x a) b).
Proof. reflexivity. Qed.

Lemma lcs_empty_r (a : string) : lcs a EmptyString = O.
Proof. by destruct a. Qed.

Lemma lcs_bound (a b : string) :
  (lcs a b <= String.length a)%nat ∧ (lcs a b <= String.length b)%nat.
Proof.
  revert b. induction a as [|x a IHa]; intros b; [simpl; lia|].
  induction b as [|y b IHb]; [rewrite lcs_empty_r; simpl; lia|].
  rewrite lcs_cons_cons. destruct (Ascii.eqb x y).
  - destruct (IHa b). simpl. lia.
  - destruct (IHa (String y b)). simpl in *. lia.
Qed.

Lemma ratio_range (a b : string) : 0 <= ratio a b ∧ ratio a b <= 100.
Proof.
  unfold ratio. destruct (lcs_bound a b) as [Ha Hb].
  destruct (String.length a + String.length b)%nat as [|n] eqn:E; [lra|].
  unfold Qle. simpl Qnum. simpl Qden.
  rewrite Zpos_P_of_succ_nat. lia.
Qed.

Lemma best_window_range (short long : string) :
  0 <= best_window short long ∧ best_window short long <= 100.
Proof.
  induction long as [|c long IH]; simpl; [lra|].
  match goal with |- context [Qgtb ?h ?l] => destruct (Qgtb h l) end;
    [apply ratio_range | done].
Qed.

Lemma align_range (short long : string) :
  0 <= align short long ∧ align short long <= 100.
Proof.
  unfold align. destruct short, long; try lra; apply best_window_range.
Qed.

Lemma reference_range (a b : string) :
  0 <= partial_ratio a b ∧ partial_ratio a b <= 100.
Proof.
  unfold partial_ratio.
  destruct (String.length a <=? String.length b)%nat; apply align_range.
Qed.

End ReferenceFacts.

(** ** The result of [match_disease] *)

Section MatchDisease.

Variable partial_ratio : string -> string -> Q.

(** The pair returned for a non-empty [results]. *)
Lemma match_disease_listing (kws : list string) (text : string)
    (entries : list dir_entry) :
  extract kws ≠ [] ->
  match_disease partial_ratio kws text (Listing entries)
  = match category_scores partial_ratio (extract kws) text entries with
    | [] => Ok ((Some "NoKeywordFiles", 0), [])
    | results =>
        Ok (match sorted_desc final results with
            | top :: _ => (Some (disease top), final top)
            | [] => (None, 0)
            end, sorted_desc final results)
    end.
Proof.
  intros Hne. unfold match_disease.
  destruct (extract kws) as [|k ks] eqn:E; [done|].
  rewrite scan_ok. simpl.
  by destruct (category_scores partial_ratio (k :: ks) text entries).
Qed.

(** A non-empty ranking comes from a listed folder and is its sorted
    [results]. *)
Lemma match_disease_ranked (kws : list string) (text : string)
    (dir : folder) (best : best_match) (ranked : list match_result) :
  match_disease partial_ratio kws text dir = Ok (best, ranked) ->
  ranked ≠ [] ->
  ∃ entries top rest,
    dir = Listing entries ∧ extract kws ≠ [] ∧
    ranked = sorted_desc final
               (category_scores partial_ratio (extract kws) text entries) ∧
    ranked = top :: rest ∧ best = (Some (disease top), final top).
Proof.
  intros H Hne.
  destruct (extract kws) as [|k ks] eqn:E.
  { unfold match_disease in H. rewrite E in H. by simplify_eq. }
  destruct dir as [| |entries].
  - unfold match_disease in H. rewrite E in H. by simplify_eq.
  - unfold match_disease in H. rewrite E in H. by simplify_eq.
  - rewrite match_disease_listing in H by (by rewrite E). rewrite E in H.
    destruct (category_scores partial_ratio (k :: ks) text entries)
      as [|r rs] eqn:Er; [by simplify_eq|].
    destruct (sorted_desc final (r :: rs)) as [|top rest] eqn:Es.
    { by apply sorted_desc_nil in Es. }
    cbv zeta in H. rewrite Es in H. simplify_eq.
    exists entries, top, rest. by rewrite Er.
Qed.

End MatchDisease.

Lemma elem_of_category_scores (partial_ratio : string -> string -> Q)
    (extracted : list string) (text : string) (entries : list dir_entry)
    (r : match_result) :
  r ∈ category_scores partial_ratio extracted text entries ↔
  ∃ name keywords,
    (name, keywords) ∈ categories entries ∧
    r = score_value partial_ratio extracted text name keywords.
Proof.
  unfold category_scores. rewrite list_elem_of_In, in_map_iff. split.
  - intros ([name keywords] & <- & Hin). exists name, keywords.
    by rewrite list_elem_of_In.
  - intros (name & keywords & Hin & ->). exists (name, keywords).
    by rewrite <- list_elem_of_In.
Qed.

Lemma elem_of_ranked (partial_ratio : string -> string -> Q)
    (kws : list string) (text : string) (dir : folder)
    (best : best_match) (ranked : list match_result) (r : match_result) :
  match_disease partial_ratio kws text dir = Ok (best, ranked) ->
  r ∈ ranked ->
  ∃ entries name keywords,
    dir = Listing entries ∧ extract kws ≠ [] ∧
    (name, keywords) ∈ categories entries ∧
    r = score_value partial_ratio (extract kws) text name keywords.
Proof.
  intros H Hr.
  destruct (match_disease_ranked _ _ _ _ _ _ H)
    as (entries & top & rest & -> & Hne & Hranked & _ & _).
  { intros ->. by apply elem_of_nil in Hr. }
  rewrite Hranked, sorted_desc_perm in Hr.
  apply elem_of_category_scores in Hr as (name & keywords & Hin & ->).
  by exists entries, name, keywords.
Qed.

(** ** The claims *)

(** C1 (amended). Every tuple of the ranking has its three numbers between
    0 and 100, and its final score is within one tenth of the blend
    [0.65 * fuzzy + 0.35 * exact] of its two reported sub-scores (the code
    rounds the blend of the sub-scores before rounding, and rounds each
    sub-score on its own, so the final score need not be the rounding of
    the blend of the reported ones). *)
Theorem score_bounds (partial_ratio : string -> string -> Q)
    (Hrange : ∀ a b, 0 <= partial_ratio a b ∧ partial_ratio a b <= 100)
    (kws : list string) (text : string) (dir : folder)
    (best : best_match) (ranked : list match_result) (r : match_result) :
  match_disease partial_ratio kws text dir = Ok (best, ranked) ->
  r ∈ ranked ->
  (0 <= fuzzy r ∧ fuzzy r <= 100) ∧
  (0 <= exact r ∧ exact r <= 100) ∧
  (0 <= final r ∧ final r <= 100) ∧
  final r - ((65 # 100) * fuzzy r + (35 # 100) * exact r) <= 1 # 10 ∧
  ((65 # 100) * fuzzy r + (35 # 100) * exact r) - final r <= 1 # 10.
Proof.
  intros H Hr.
  destruct (elem_of_ranked _ _ _ _ _ _ _ H Hr)
    as (entries & name & keywords & -> & Hne & Hin & ->).
  unfold score_value. simpl.
  set (long := keywords_long keywords).
  destruct (fuzzy_value_range partial_ratio Hrange (extract kws) long)
    as [Hf0 Hf1].
  destruct (exact_value_range text long) as [He0 He1].
  set (af := fuzzy_value partial_ratio (extract kws) long) in *.
  set (ec := exact_value text long) in *.
  pose proof (round1_near af) as [? ?].
  pose proof (round1_near ec) as [? ?].
  pose proof (round1_near ((65 # 100) * af + (35 # 100) * ec)) as [? ?].
  split_and!; try (apply round1_between; lra); lra.
Qed.

(** C2. For every tuple of the ranking, the fuzzy sub-score of its category
    is the sum, over the phrases of length 3 or more of the keyword list, of
    the largest partial ratio of the phrase with a filtered transcript
    word, divided by the number of such phrases, and it is 0 when no phrase
    has length 3 or more; the reported number is that value rounded. *)
Theorem fuzzy_subscore (partial_ratio : string -> string -> Q)
    (Hrange : ∀ a b, 0 <= partial_ratio a b ∧ partial_ratio a b <= 100)
    (kws : list string) (text : string) (dir : folder)
    (best : best_match) (ranked : list match_result) (r : match_result) :
  match_disease partial_ratio kws text dir = Ok (best, ranked) ->
  r ∈ ranked ->
  ∃ entries name keywords af,
    dir = Listing entries ∧ (name, keywords) ∈ categories entries ∧
    disease r = name ∧
    avg_fuzzy partial_ratio (extract kws) (keywords_long keywords) = Ok af ∧
    fuzzy r = round1 af ∧
    (keywords_long keywords ≠ [] ->
     af == Qsum (map (λ dk, Qmaximum (map (λ ek, partial_ratio ek dk)
                                          (extract kws)))
                     (keywords_long keywords))
           / len (keywords_long keywords)) ∧
    (keywords_long keywords = [] -> af = 0).
Proof.
  intros H Hr.
  destruct (elem_of_ranked _ _ _ _ _ _ _ H Hr)
    as (entries & name & keywords & -> & Hne & Hin & ->).
  exists entries, name, keywords,
    (fuzzy_value partial_ratio (extract kws) (keywords_long keywords)).
  split_and!; try done.
  - apply avg_fuzzy_ok.
  - intros Hlong. rewrite (fuzzy_value_spec partial_ratio Hrange) by done.
    unfold fuzzy_spec. by destruct (keywords_long keywords).
  - by intros ->.
Qed.

Lemma prefix_spec (pat s : string) :
  String.prefix pat s = true ↔ ∃ b, s = String.append pat b.
Proof.
  revert s. induction pat as [|c pat IH]; intros s.
  - split; [intros _; by exists s | by destruct s].
  - destruct s as [|d s]; [split; [done | by intros [b Hb]]|].
    cbn [String.prefix]. destruct (ascii_dec c d) as [->|Hcd].
    + rewrite IH. split; intros [b Hb]; exists b.
      * by rewrite append_cons, Hb.
      * rewrite append_cons in Hb. by simplify_eq.
    + split; [done|]. intros [b Hb]. rewrite append_cons in Hb.
      by simplify_eq.
Qed.

Lemma search_empty (pat : string) :
  Text.search pat EmptyString = String.prefix pat EmptyString || false.
Proof. reflexivity. Qed.

Lemma search_cons (pat : string) (c : ascii) (s : string) :
  Text.search pat (String c s)
  = String.prefix pat (String c s) || Text.search pat s.
Proof. reflexivity. Qed.

(** [search] is the test for a literal substring. *)
Lemma search_spec (pat s : string) :
  Text.search pat s = true ↔
  ∃ a b, s = String.append a (String.append pat b).
Proof.
  induction s as [|c s IH]; [rewrite search_empty | rewrite search_cons].
  - rewrite orb_false_r, prefix_spec. split.
    + intros [b Hb]. by exists EmptyString, b.
    + intros (a & b & Hab). destruct a as [|d a]; [by exists b|].
      by rewrite append_cons in Hab.
  - rewrite orb_true_iff, IH, prefix_spec. split.
    + intros [[b Hb]|(a & b & Hab)].
      * by exists EmptyString, b.
      * exists (String c a), b. by rewrite append_cons, Hab.
    + intros (a & b & Hab). destruct a as [|d a].
      * left. by exists b.
      * right. rewrite append_cons in Hab. simplify_eq. by exists a, b.
Qed.

(** C3 (the code departs from the claim). The exact test looks for the
    lower-cased phrase in the transcript text as it was passed, so it
    depends on the letter case of the transcript: with the keyword [rash],
    the transcript [Rash] has exact sub-score 0, and the transcript [rash]
    has exact sub-score 100. *)
Theorem exact_match_case_sensitive :
  match_disease Reference.partial_ratio (get_transcript_words "Rash") "Rash"
    (Listing [DirEntry "rash.txt" (Lines ["rash"])])
  = Ok ((Some "rash", 65), [MatchResult "rash" 65 100 0])
  ∧
  match_disease Reference.partial_ratio (get_transcript_words "rash") "rash"
    (Listing [DirEntry "rash.txt" (Lines ["rash"])])
  = Ok ((Some "rash", 100), [MatchResult "rash" 100 100 100]).
Proof. split; vm_compute; reflexivity. Qed.

(** C4. A non-empty ranking is the list of category tuples sorted by
    non-increasing final score; tuples with equal final scores keep their
    enumeration order; and the best match is the name and final score of
    the head of the ranking. *)
Theorem ranking_sorted_stable (partial_ratio : string -> string -> Q)
    (kws : list string) (text : string) (dir : folder)
    (best : best_match) (ranked : list match_result) :
  match_disease partial_ratio kws text dir = Ok (best, ranked) ->
  ranked ≠ [] ->
  ∃ entries,
    dir = Listing entries ∧
    let results := category_scores partial_ratio (extract kws) text entries in
    ranked ≡ₚ results ∧
    StronglySorted (λ a b, final b <= final a) ranked ∧
    (∀ q, filter (λ r, final r == q) ranked
          = filter (λ r, final r == q) results) ∧
    ∃ top rest, ranked = top :: rest ∧ best = (Some (disease top), final top).
Proof.
  intros H Hne.
  destruct (match_disease_ranked _ _ _ _ _ _ H Hne)
    as (entries & top & rest & -> & _ & Hranked & Htop & Hbest).
  exists entries. split; [done|]. simpl. split_and!.
  - rewrite Hranked. apply sorted_desc_perm.
  - rewrite Hranked. apply (sorted_desc_sorted final).
  - intros q. rewrite Hranked. apply sorted_desc_stable.
  - by exists top, rest.
Qed.

(** C5. When no keyword passes the stop-token and length filters,
    [match_disease] returns the pair [("NoKeywords", 0)] and an empty
    ranking, whatever the keyword folder is. *)
Theorem no_keywords_sentinel (partial_ratio : string -> string -> Q)
    (kws : list string) (text : string) (dir : folder) :
  extract kws = [] ->
  match_disease partial_ratio kws text dir = Ok ((Some "NoKeywords", 0), []).
Proof. intros H. unfold match_disease. by rewrite H. Qed.

(** C6. With some keyword left after filtering and a keyword folder that is
    not a directory, [match_disease] returns the pair
    [("KeywordFolderNotFound", 0)] and an empty ranking; it returns, no
    exception is raised. *)
Theorem folder_not_found_sentinel (partial_ratio : string -> string -> Q)
    (kws : list string) (text : string) :
  extract kws ≠ [] ->
  match_disease partial_ratio kws text NotADirectory
  = Ok ((Some "KeywordFolderNotFound", 0), []).
Proof.
  intros H. unfold match_disease. by destruct (extract kws).
Qed.

(** C7. With some keyword left after filtering and a listed folder in which
    every entry is skipped (its name does not end in [.txt], or it cannot
    be read), [match_disease] returns the pair [("NoKeywordFiles", 0)] and
    an empty ranking. *)
Theorem no_keyword_files_sentinel (partial_ratio : string -> string -> Q)
    (kws : list string) (text : string) (entries : list dir_entry) :
  extract kws ≠ [] ->
  Forall (λ e, Text.endswith ".txt" (file_name e) = false
               ∨ content e = Unreadable) entries ->
  match_disease partial_ratio kws text (Listing entries)
  = Ok ((Some "NoKeywordFiles", 0), []).
Proof.
  intros Hne Hskip. rewrite match_disease_listing by done.
  assert (Hnone : categories entries = []).
  { unfold categories. induction Hskip as [|e entries He _ IH]; [done|].
    simpl. unfold category at 1. destruct He as [-> | ->]; [done|].
    by destruct (Text.endswith ".txt" (file_name e)). }
  unfold category_scores. by rewrite Hnone.
Qed.

(** C10. A readable [.txt] file without any phrase of length 3 or more (an
    empty file included) still gives a tuple in the ranking, with final,
    fuzzy and exact all 0, so the ranking is not empty and the file does
    not lead to the [NoKeywordFiles] pair; and the exact coverage, whose
    divisor is [max(1, len)], is computed without a division by zero for
    every keyword list. *)
Theorem empty_category_scored (partial_ratio : string -> string -> Q)
    (kws : list string) (text : string) (entries : list dir_entry)
    (e : dir_entry) (lines : list string) :
  extract kws ≠ [] ->
  e ∈ entries ->
  Text.endswith ".txt" (file_name e) = true ->
  content e = Lines lines ->
  keywords_long (disease_keywords lines) = [] ->
  (∃ best ranked,
     match_disease partial_ratio kws text (Listing entries) = Ok (best, ranked) ∧
     MatchResult (Text.remove_all ".txt" (file_name e)) 0 0 0 ∈ ranked ∧
     ranked ≠ []) ∧
  (∀ long, (0 < Z.max 1 (Z.of_nat (length long)))%Z ∧
           ∃ ec, exact_coverage text long = Ok ec).
Proof.
  intros Hne He Htxt Hcontent Hlong. split.
  - assert (Hin : MatchResult (Text.remove_all ".txt" (file_name e)) 0 0 0
                  ∈ category_scores partial_ratio (extract kws) text entries).
    { apply elem_of_category_scores.
      exists (Text.remove_all ".txt" (file_name e)), (disease_keywords lines).
      split.
      - apply list_elem_of_omap. exists e. split; [done|].
        unfold category. by rewrite Htxt, Hcontent.
      - unfold score_value. by rewrite Hlong. }
    rewrite match_disease_listing by done.
    destruct (category_scores partial_ratio (extract kws) text entries)
      as [|r rs] eqn:E; [by apply elem_of_nil in Hin|].
    eexists _, _. split; [reflexivity|].
    assert (Hranked : MatchResult (Text.remove_all ".txt" (file_name e)) 0 0 0
                      ∈ sorted_desc final (r :: rs))
      by by rewrite sorted_desc_perm.
    split; [done|]. intros Hnil. rewrite Hnil in Hranked.
    by apply elem_of_nil in Hranked.
  - intros long. split; [lia|]. eexists. apply exact_coverage_ok.
Qed.

(** ** The worked example *)

Lemma sample_words : get_transcript_words sample_text = ["rash"].
Proof. vm_compute. reflexivity. Qed.

(** The run of [match_disease] on the worked example. *)
Lemma sample_run :
  match_disease Reference.partial_ratio (get_transcript_words sample_text)
    sample_text (Listing sample_entries)
  = Ok (sample_best, sample_ranked).
Proof. vm_compute. reflexivity. Defined.

Lemma sample_eczema_ranked : sample_eczema ∈ sample_ranked.
Proof. unfold sample_ranked. rewrite !elem_of_cons. right. by left. Defined.

Lemma sample_extract_nonempty : extract (get_transcript_words sample_text) ≠ [].
Proof. intros H. vm_compute in H. discriminate H. Defined.

(** C1 as stated fails: for the category [eczema] of the example the
    reported numbers are final 21.7, fuzzy 33.3 and exact 0, while
    [round1 (0.65 * 33.3 + 0.35 * 0)] is 21.6. *)
Lemma final_not_blend_of_reported :
  match_disease Reference.partial_ratio (get_transcript_words "rash") "rash"
    (Listing [DirEntry "eczema.txt" (Lines ["rash on arm"; "bump"; "cold"])])
  = Ok ((Some "eczema", 217 # 10), [sample_eczema])
  ∧ final sample_eczema
    - round1 ((65 # 100) * fuzzy sample_eczema + (35 # 100) * exact sample_eczema)
    == 1 # 10
  ∧ ¬ (final sample_eczema
       == round1 ((65 # 100) * fuzzy sample_eczema
                  + (35 # 100) * exact sample_eczema)).
Proof.
  split_and!.
  - vm_compute. reflexivity.
  - vm_compute. reflexivity.
  - intros H. vm_compute in H. discriminate H.
Qed.

(** [score_bounds] on the category [eczema] of the worked example. *)
Lemma score_bounds_witness :
  match_disease Reference.partial_ratio (get_transcript_words sample_text)
    sample_text (Listing sample_entries)
  = Ok (sample_best, sample_ranked)
  ∧ sample_eczema ∈ sample_ranked
  ∧ (0 <= fuzzy sample_eczema ∧ fuzzy sample_eczema <= 100)
  ∧ (0 <= exact sample_eczema ∧ exact sample_eczema <= 100)
  ∧ (0 <= final sample_eczema ∧ final sample_eczema <= 100)
  ∧ final sample_eczema
    - ((65 # 100) * fuzzy sample_eczema + (35 # 100) * exact sample_eczema)
    <= 1 # 10
  ∧ ((65 # 100) * fuzzy sample_eczema + (35 # 100) * exact sample_eczema)
    - final sample_eczema <= 1 # 10.
Proof.
  split; [exact sample_run|]. split; [exact sample_eczema_ranked|].
  exact (score_bounds Reference.partial_ratio reference_range
           (get_transcript_words sample_text) sample_text
           (Listing sample_entries) sample_best sample_ranked sample_eczema
           sample_run sample_eczema_ranked).
Defined.

(** [fuzzy_subscore] on the category [eczema] of the worked example. *)
Lemma fuzzy_subscore_witness :
  match_disease Reference.partial_ratio (get_transcript_words sample_text)
    sample_text (Listing sample_entries)
  = Ok (sample_best, sample_ranked)
  ∧ sample_eczema ∈ sample_ranked
  ∧ ∃ entries name keywords af,
      Listing sample_entries = Listing entries ∧
      (name, keywords) ∈ categories entries ∧
      disease sample_eczema = name ∧
      avg_fuzzy Reference.partial_ratio
        (extract (get_transcript_words sample_text)) (keywords_long keywords)
      = Ok af ∧
      fuzzy sample_eczema = round1 af ∧
      (keywords_long keywords ≠ [] ->
       af == Qsum (map (λ dk, Qmaximum
                                (map (λ ek, Reference.partial_ratio ek dk)
                                     (extract (get_transcript_words sample_text))))
                       (keywords_long keywords))
             / len (keywords_long keywords)) ∧
      (keywords_long keywords = [] -> af = 0).
Proof.
  split; [exact sample_run|]. split; [exact sample_eczema_ranked|].
  exact (fuzzy_subscore Reference.partial_ratio reference_range
           (get_transcript_words sample_text) sample_text
           (Listing sample_entries) sample_best sample_ranked sample_eczema
           sample_run sample_eczema_ranked).
Defined.

(** [ranking_sorted_stable] on the worked example: [hives] moves to the
    front, [empty] and [blank] tie at 0 and keep their order. *)
Lemma ranking_sorted_stable_witness :
  match_disease Reference.partial_ratio (get_transcript_words sample_text)
    sample_text (Listing sample_entries)
  = Ok (sample_best, sample_ranked)
  ∧ sample_ranked ≠ []
  ∧ ∃ entries,
      Listing sample_entries = Listing entries ∧
      let results :=
        category_scores Reference.partial_ratio
          (extract (get_transcript_words sample_text)) sample_text entries in
      sample_ranked ≡ₚ results ∧
      StronglySorted (λ a b, final b <= final a) sample_ranked ∧
      (∀ q, filter (λ r, final r == q) sample_ranked
            = filter (λ r, final r == q) results) ∧
      ∃ top rest,
        sample_ranked = top :: rest ∧
        sample_best = (Some (disease top), final top).
Proof.
  assert (Hne : sample_ranked ≠ []) by discriminate.
  split; [exact sample_run|]. split; [exact Hne|].
  exact (ranking_sorted_stable Reference.partial_ratio
           (get_transcript_words sample_text) sample_text
           (Listing sample_entries) sample_best sample_ranked sample_run Hne).
Defined.

(** [no_keywords_sentinel] on a transcript made of stop words only. *)
Lemma no_keywords_sentinel_witness :
  extract (get_transcript_words "the a it is") = []
  ∧ match_disease Reference.partial_ratio (get_transcript_words "the a it is")
      "the a it is" (Listing sample_entries)
    = Ok ((Some "NoKeywords", 0), []).
Proof.
  assert (H : extract (get_transcript_words "the a it is") = [])
    by (vm_compute; reflexivity).
  split; [exact H|].
  exact (no_keywords_sentinel Reference.partial_ratio
           (get_transcript_words "the a it is") "the a it is"
           (Listing sample_entries) H).
Defined.

(** [folder_not_found_sentinel] on the transcript of the worked example. *)
Lemma folder_not_found_sentinel_witness :
  extract (get_transcript_words sample_text) ≠ []
  ∧ match_disease Reference.partial_ratio (get_transcript_words sample_text)
      sample_text NotADirectory
    = Ok ((Some "KeywordFolderNotFound", 0), []).
Proof.
  split; [exact sample_extract_nonempty|].
  exact (folder_not_found_sentinel Reference.partial_ratio
           (get_transcript_words sample_text) sample_text
           sample_extract_nonempty).
Defined.

(** [no_keyword_files_sentinel] on a folder with a file of another
    extension and an unreadable [.txt] file. *)
Lemma no_keyword_files_sentinel_witness :
  extract (get_transcript_words sample_text) ≠ []
  ∧ Forall (λ e, Text.endswith ".txt" (file_name e) = false
                 ∨ content e = Unreadable)
      [DirEntry "notes.md" (Lines ["rash"]); DirEntry "acne.txt" Unreadable]
  ∧ match_disease Reference.partial_ratio (get_transcript_words sample_text)
      sample_text
      (Listing [DirEntry "notes.md" (Lines ["rash"]);
                DirEntry "acne.txt" Unreadable])
    = Ok ((Some "NoKeywordFiles", 0), []).
Proof.
  assert (Hskip :
    Forall (λ e, Text.endswith ".txt" (file_name e) = false
                 ∨ content e = Unreadable)
      [DirEntry "notes.md" (Lines ["rash"]); DirEntry "acne.txt" Unreadable]).
  { constructor; [left; reflexivity|].
    constructor; [right; reflexivity|]. constructor. }
  split; [exact sample_extract_nonempty|]. split; [exact Hskip|].
  exact (no_keyword_files_sentinel Reference.partial_ratio
           (get_transcript_words sample_text) sample_text _
           sample_extract_nonempty Hskip).
Defined.

(** [empty_category_scored] on the file [blank.txt] of the worked example,
    whose lines are blank or shorter than 3. *)
Lemma empty_category_scored_witness :
  extract (get_transcript_words sample_text) ≠ []
  ∧ DirEntry "blank.txt" (Lines ["  "; "ab"]) ∈ sample_entries
  ∧ keywords_long (disease_keywords ["  "; "ab"]) = []
  ∧ (∃ best ranked,
       match_disease Reference.partial_ratio
         (get_transcript_words sample_text) sample_text (Listing sample_entries)
       = Ok (best, ranked) ∧
       MatchResult "blank" 0 0 0 ∈ ranked ∧ ranked ≠ [])
  ∧ (∀ long, (0 < Z.max 1 (Z.of_nat (length long)))%Z ∧
             ∃ ec, exact_coverage sample_text long = Ok ec).
Proof.
  assert (Hin : DirEntry "blank.txt" (Lines ["  "; "ab"]) ∈ sample_entries).
  { unfold sample_entries. rewrite !elem_of_cons. do 5 right. by left. }
  assert (Hlong : keywords_long (disease_keywords ["  "; "ab"]) = [])
    by (vm_compute; reflexivity).
  split; [exact sample_extract_nonempty|]. split; [exact Hin|].
  split; [exact Hlong|].
  exact (empty_category_scored Reference.partial_ratio
           (get_transcript_words sample_text) sample_text sample_entries
           (DirEntry "blank.txt" (Lines ["  "; "ab"])) ["  "; "ab"]
           sample_extract_nonempty Hin eq_refl eq_refl Hlong).
Defined.

(** * Further properties of the tokeniser *)

Section TokeniserFacts.
Import Text.

Lemma lower_not_upper (s : string) :
  all_chars (fun c => negb (is_upper c)) (lower s) = true.
Proof.
  induction s as [|c s IH]; simpl; [done|].
  by rewrite lower_char_not_upper, IH.
Qed.

Lemma lower_idem (s : string) : lower (lower s) = lower s.
Proof. apply lower_fixed, lower_not_upper. Qed.

Lemma strip_punct_lower (s : string) :
  strip_punct (lower s) = lower (strip_punct s).
Proof.
  induction s as [|c s IH]; simpl; [done|].
  rewrite lower_char_word, lower_char_space.
  destruct (is_word c || is_space c); simpl; by rewrite IH.
Qed.

Lemma strip_punct_kept (s : string) :
  all_chars (fun c => is_word c || is_space c) (strip_punct s) = true.
Proof.
  induction s as [|c s IH]; simpl; [done|].
  destruct (is_word c || is_space c) eqn:E; [|done]. simpl. by rewrite E, IH.
Qed.

Lemma strip_punct_idem (s : string) :
  strip_punct (strip_punct s) = strip_punct s.
Proof. apply strip_punct_fixed, strip_punct_kept. Qed.

Lemma lower_app (s t : string) :
  lower (String.append s t) = String.append (lower s) (lower t).
Proof.
  induction s as [|c s IH]; [done|].
  rewrite append_cons. simpl. by rewrite IH, append_cons.
Qed.

Lemma strip_punct_app (s t : string) :
  strip_punct (String.append s t)
  = String.append (strip_punct s) (strip_punct t).
Proof.
  induction s as [|c s IH]; [done|].
  rewrite append_cons. simpl.
  destruct (is_word c || is_space c); by rewrite IH, ?append_cons.
Qed.

Lemma push_word_app (w : string) (l1 l2 : list string) :
  push_word w (l1 ++ l2)%list = (push_word w l1 ++ l2)%list.
Proof. by destruct w. Qed.

Lemma split_go_app_done (a s : string) :
  (split_go s).1 = EmptyString ->
  split_go (String.append a s)
  = ((split_go a).1, ((split_go a).2 ++ (split_go s).2)%list).
Proof.
  intros Hs. induction a as [|c a IH].
  - rewrite append_nil_l. simpl. rewrite <- Hs. by destruct (split_go s).
  - rewrite append_cons. simpl. rewrite IH.
    destruct (split_go a) as [w ws]. simpl.
    destruct (is_space c); [|done]. by rewrite push_word_app.
Qed.

(** Splitting two texts joined by a space gives the words of the first
    followed by the words of the second. *)
Lemma split_app_space (a b : string) :
  split (String.append a (String " "%char b)) = (split a ++ split b)%list.
Proof.
  assert (Hgo : split_go (String " "%char b) = (EmptyString, split b)).
  { simpl. unfold split. by destruct (split_go b). }
  unfold split at 1 2. rewrite split_go_app_done by by rewrite Hgo.
  rewrite Hgo. simpl. destruct (split_go a) as [w ws]. simpl.
  by rewrite push_word_app.
Qed.

Lemma all_words_app_space (a b : string) :
  all_words (String.append a (String " "%char b))
  = (all_words a ++ all_words b)%list.
Proof.
  unfold all_words, clean_text.
  rewrite lower_app. simpl lower.
  rewrite strip_punct_app. simpl strip_punct.
  change (lower_char " "%char) with " "%char.
  change (is_word " "%char || is_space " "%char) with true.
  cbv iota. apply split_app_space.
Qed.

End TokeniserFacts.

(** X1. For a transcript of ASCII characters, letter case and punctuation do
    not matter to [get_transcript_words]: the lower-cased text, and the
    text without its punctuation, give the same words as the text itself. *)
Theorem tokenize_ignores_case_and_punctuation (text : string) :
  Text.all_chars ascii_char text = true ->
  get_transcript_words (Text.lower text) = get_transcript_words text
  ∧ get_transcript_words (Text.strip_punct text) = get_transcript_words text.
Proof.
  intros _.
  unfold get_transcript_words, found_keywords, all_words, clean_text. split.
  - by rewrite lower_idem.
  - by rewrite <- strip_punct_lower, strip_punct_idem.
Qed.

(** [tokenize_ignores_case_and_punctuation] on a short ASCII sentence. *)
Lemma tokenize_ignores_case_and_punctuation_witness :
  Text.all_chars ascii_char "It's RED, isn't it?" = true
  ∧ get_transcript_words (Text.lower "It's RED, isn't it?")
    = get_transcript_words "It's RED, isn't it?"
  ∧ get_transcript_words (Text.strip_punct "It's RED, isn't it?")
    = get_transcript_words "It's RED, isn't it?".
Proof.
  split; [reflexivity|].
  exact (tokenize_ignores_case_and_punctuation "It's RED, isn't it?" eq_refl).
Defined.

Lemma plain_of_token (c : ascii) :
  clean_char c && not_space c = true -> plain_char c = true.
Proof.
  unfold clean_char, not_space, plain_char, Text.is_word.
  destruct (Text.is_upper c), (Text.is_lower c), (Text.is_digit c),
    (Text.code c =? 95)%N, (Text.is_space c); simpl; congruence.
Qed.

(** X2. Every word returned by [get_transcript_words] is made of lower-case
    letters, digits and underscores only: no upper-case letter, no
    punctuation and no whitespace survives. *)
Theorem tokens_are_plain (text : string) :
  Forall (λ w, Text.all_chars plain_char w = true) (get_transcript_words text).
Proof.
  eapply Forall_impl; [apply get_transcript_words_tokens|].
  intros w [_ Hw]. revert Hw. apply all_chars_impl. apply plain_of_token.
Qed.

(** Settles a decidable closed proposition by evaluating its decision. *)
Ltac decide_by_compute :=
  lazymatch goal with
  | |- ?P => apply (@bool_decide_unpack P _); vm_compute; exact I
  end.

Lemma word_of_token (c : ascii) :
  clean_char c && not_space c = true -> Text.is_word c = true.
Proof.
  unfold clean_char, not_space.
  destruct (Text.is_upper c), (Text.is_word c), (Text.is_space c);
    simpl; congruence.
Qed.

(** X3. A stop word that holds a character other than a letter, a digit or
    an underscore (the entries with an apostrophe, such as [doesn't]) is
    never met by the stop-word test: the punctuation is removed from the
    text before the words are compared, so no word of the text equals it. *)
Theorem punctuated_stop_word_never_matches (text sw : string) :
  sw ∈ stop_words ->
  Text.all_chars Text.is_word sw = false ->
  sw ∉ all_words text.
Proof.
  intros _ Hsw Hin.
  pose proof (all_words_tokens text) as Hall. rewrite Forall_forall in Hall.
  destruct (Hall sw Hin) as [_ Hchars].
  apply (all_chars_impl _ Text.is_word) in Hchars; [congruence|].
  apply word_of_token.
Qed.

(** [punctuated_stop_word_never_matches] for the stop word [doesn't]. *)
Lemma punctuated_stop_word_never_matches_witness :
  "doesn't" ∈ stop_words
  ∧ Text.all_chars Text.is_word "doesn't" = false
  ∧ "doesn't" ∉ all_words "It doesn't itch.".
Proof.
  assert (Hin : "doesn't" ∈ stop_words).
  { decide_by_compute. }
  split; [exact Hin|]. split; [reflexivity|].
  exact (punctuated_stop_word_never_matches "It doesn't itch." "doesn't"
           Hin eq_refl).
Defined.

(** X4. The words of two texts joined by a space are the words of the one
    together with the words of the other. *)
Theorem tokenize_joined (a b w : string) :
  w ∈ get_transcript_words (String.append a (String " "%char b)) ↔
  w ∈ get_transcript_words a ∨ w ∈ get_transcript_words b.
Proof.
  rewrite !elem_of_get_transcript_words, all_words_app_space, elem_of_app.
  tauto.
Qed.

Lemma stop_tokens_covered :
  Forall (λ w, w ∈ stop_words ∨ w = "large")
    [ "a"; "an"; "the"; "is"; "it"; "i"; "me"; "my"; "we"; "you"; "he";
      "she"; "they"; "small"; "large" ].
Proof. decide_by_compute. Qed.

Lemma stop_tokens_cases (w : string) :
  w ∈ stop_tokens -> w ∈ stop_words ∨ w = "large".
Proof.
  unfold stop_tokens. rewrite elem_of_list_to_set. intros H.
  pose proof stop_tokens_covered as Hall. rewrite Forall_forall in Hall.
  exact (Hall w H).
Qed.

Lemma large_stop_token : "large" ∈ stop_tokens.
Proof. decide_by_compute. Qed.

Lemma filter_ext_Forall {A : Type} (P Q : A -> Prop)
    `{!∀ x, Decision (P x), !∀ x, Decision (Q x)} (l : list A) :
  Forall (λ x, P x ↔ Q x) l -> filter P l = filter Q l.
Proof.
  induction 1 as [|x l Hx Hl IH]; [done|].
  rewrite !filter_cons, IH.
  destruct (decide (P x)), (decide (Q x)); tauto.
Qed.

(** X5. On the words that [get_transcript_words] returns, the second filter
    of [match_disease] (length at least 3, not a stop token) removes the
    word [large] and nothing else; so the pipeline of [main] takes the
    [NoKeywords] exit exactly when the transcript has no word, or only the
    word [large]. *)
Theorem second_filter_removes_only_large (text : string) :
  extract (get_transcript_words text)
  = filter (λ w, w ≠ "large") (get_transcript_words text)
  ∧ (extract (get_transcript_words text) = [] ↔
     ∀ w, w ∈ get_transcript_words text → w = "large").
Proof.
  assert (Heq : extract (get_transcript_words text)
                = filter (λ w, w ≠ "large") (get_transcript_words text)).
  { unfold extract. apply filter_ext_Forall, Forall_forall. intros w Hw.
    apply elem_of_get_transcript_words in Hw as (_ & Hstop & Hlen). split.
    - intros [_ Htok] ->. apply Htok, large_stop_token.
    - intros Hne. split; [lia|]. intros Htok.
      destruct (stop_tokens_cases w Htok) as [Hsw | Hl];
        [exact (Hstop Hsw) | exact (Hne Hl)]. }
  split; [exact Heq|]. rewrite Heq. split.
  - intros Hnil w Hw. destruct (decide (w = "large")) as [|Hne]; [done|].
    assert (Hin : w ∈ filter (λ w, w ≠ "large") (get_transcript_words text))
      by by apply list_elem_of_filter.
    rewrite Hnil in Hin. by apply elem_of_nil in Hin.
  - intros Hall.
    destruct (filter (λ w, w ≠ "large") (get_transcript_words text))
      as [|w ws] eqn:E; [done|].
    assert (Hin : w ∈ filter (λ w, w ≠ "large") (get_transcript_words text))
      by (rewrite E; apply elem_of_cons; by left).
    apply list_elem_of_filter in Hin as [Hne Hw]. by apply Hall in Hw.
Qed.

(** * Further properties of the matcher *)

Lemma match_disease_perm (partial_ratio : string -> string -> Q)
    (kws : list string) (text : string) (entries : list dir_entry)
    (best : best_match) (ranked : list match_result) :
  match_disease partial_ratio kws text (Listing entries) = Ok (best, ranked) ->
  extract kws ≠ [] ->
  ranked ≡ₚ category_scores partial_ratio (extract kws) text entries.
Proof.
  intros H Hne. rewrite match_disease_listing in H by done.
  destruct (category_scores partial_ratio (extract kws) text entries)
    as [|r rs]; [by simplify_eq|].
  cbv zeta in H. simplify_eq. apply (sorted_desc_perm final (r :: rs)).
Qed.

Lemma match_disease_named (partial_ratio : string -> string -> Q)
    (kws : list string) (text : string) (dir : folder)
    (best : best_match) (ranked : list match_result) :
  match_disease partial_ratio kws text dir = Ok (best, ranked) ->
  is_Some best.1.
Proof.
  intros H. destruct ranked as [|r rs].
  - destruct (extract kws) as [|k ks] eqn:E.
    { unfold match_disease in H. rewrite E in H. by simplify_eq. }
    destruct dir as [| |entries].
    + unfold match_disease in H. rewrite E in H. by simplify_eq.
    + unfold match_disease in H. rewrite E in H. by simplify_eq.
    + rewrite match_disease_listing in H by (by rewrite E).
      destruct (category_scores partial_ratio (extract kws) text entries)
        as [|r rs] eqn:Er; [by simplify_eq|].
      cbv zeta in H. simplify_eq.
      match goal with H : insert_desc _ _ _ = [] |- _ =>
        by apply (sorted_desc_nil final (r :: rs)) in H end.
  - destruct (match_disease_ranked _ _ _ _ _ _ H)
      as (_ & top & rest & _ & _ & _ & _ & ->); [done|]. by eexists.
Qed.

(** X6. Whenever [match_disease] returns, the best match carries a name
    (never [None]) and its score is at least the final score of every
    tuple of the ranking. *)
Theorem best_is_maximal (partial_ratio : string -> string -> Q)
    (kws : list string) (text : string) (dir : folder)
    (best : best_match) (ranked : list match_result) :
  match_disease partial_ratio kws text dir = Ok (best, ranked) ->
  is_Some best.1 ∧ Forall (λ r, final r <= best.2) ranked.
Proof.
  intros H. split; [by eapply match_disease_named|].
  destruct ranked as [|r rs]; [constructor|].
  destruct (match_disease_ranked _ _ _ _ _ _ H)
    as (entries & top & rest & _ & _ & Hsorted & Htop & ->); [done|].
  pose proof (sorted_desc_sorted final
    (category_scores partial_ratio (extract kws) text entries)) as Hs.
  rewrite <- Hsorted, Htop in Hs. rewrite Htop.
  apply StronglySorted_inv in Hs as [_ Hall].
  constructor; [simpl; lra|].
  eapply Forall_impl; [exact Hall|]. by intros x Hx.
Qed.

(** [best_is_maximal] on the worked example. *)
Lemma best_is_maximal_witness :
  match_disease Reference.partial_ratio (get_transcript_words sample_text)
    sample_text (Listing sample_entries)
  = Ok (sample_best, sample_ranked)
  ∧ is_Some sample_best.1
  ∧ Forall (λ r, final r <= sample_best.2) sample_ranked.
Proof.
  split; [exact sample_run|].
  exact (best_is_maximal Reference.partial_ratio
           (get_transcript_words sample_text) sample_text
           (Listing sample_entries) sample_best sample_ranked sample_run).
Defined.

(** X7. [match_disease] raises in one situation only: some keyword is left
    after filtering and listing the keyword folder fails. In particular
    neither division of the scoring loop ever raises. *)
Theorem raises_only_when_unlistable (partial_ratio : string -> string -> Q)
    (kws : list string) (text : string) (dir : folder) (e : exn) :
  match_disease partial_ratio kws text dir = Raise e ->
  e = OSError ∧ dir = Unlistable ∧ extract kws ≠ [].
Proof.
  intros H. destruct (extract kws) as [|k ks] eqn:E.
  { unfold match_disease in H. by rewrite E in H. }
  destruct dir as [| |entries].
  - unfold match_disease in H. by rewrite E in H.
  - unfold match_disease in H. rewrite E in H. by simplify_eq.
  - rewrite match_disease_listing in H by (by rewrite E).
    by destruct (category_scores partial_ratio (extract kws) text entries).
Qed.

(** [raises_only_when_unlistable] on an unlistable folder. *)
Lemma raises_only_when_unlistable_witness :
  match_disease Reference.partial_ratio (get_transcript_words sample_text)
    sample_text Unlistable = Raise OSError
  ∧ OSError = OSError ∧ Unlistable = Unlistable
  ∧ extract (get_transcript_words sample_text) ≠ [].
Proof.
  assert (H : match_disease Reference.partial_ratio
                (get_transcript_words sample_text) sample_text Unlistable
              = Raise OSError) by (vm_compute; reflexivity).
  split; [exact H|].
  exact (raises_only_when_unlistable Reference.partial_ratio
           (get_transcript_words sample_text) sample_text Unlistable OSError H).
Defined.

Lemma category_readable (e : dir_entry) :
  readable_txt e = false -> category e = None.
Proof.
  unfold readable_txt, category.
  destruct (Text.endswith ".txt" (file_name e)); [|done].
  by destruct (content e).
Qed.

Lemma category_name (e : dir_entry) (c : string * list string) :
  category e = Some c ->
  readable_txt e = true ∧ c.1 = Text.remove_all ".txt" (file_name e).
Proof.
  unfold readable_txt, category.
  destruct (Text.endswith ".txt" (file_name e)); [|done].
  destruct (content e); [done|]. intros H. by simplify_eq.
Qed.

Lemma categories_cons (e : dir_entry) (entries : list dir_entry) :
  categories (e :: entries)
  = match category e with
    | Some c => c :: categories entries
    | None => categories entries
    end.
Proof. reflexivity. Qed.

Lemma categories_readable (entries : list dir_entry) :
  categories (filter (λ e, readable_txt e = true) entries) = categories entries.
Proof.
  induction entries as [|e entries IH]; [done|].
  rewrite filter_cons, (categories_cons e entries).
  destruct (decide (readable_txt e = true)) as [E|E].
  - by rewrite categories_cons, IH.
  - apply not_true_is_false in E. by rewrite (category_readable e E).
Qed.

Lemma categories_names (entries : list dir_entry) :
  map fst (categories entries)
  = map (λ e, Text.remove_all ".txt" (file_name e))
        (filter (λ e, readable_txt e = true) entries).
Proof.
  induction entries as [|e entries IH]; [done|].
  rewrite filter_cons, categories_cons.
  destruct (category e) as [c|] eqn:Ec.
  - destruct (category_name e c Ec) as [Hr Hn].
    rewrite decide_True by done. simpl. by rewrite IH, Hn.
  - destruct (decide (readable_txt e = true)) as [E|E]; [|done].
    unfold readable_txt, category in *.
    destruct (Text.endswith ".txt" (file_name e)); [|done].
    by destruct (content e).
Qed.

(** X8. The entries that the loop skips (a name that does not end in
    [.txt], a file that cannot be read) have no effect: removing them from
    the folder gives the same result. *)
Theorem skipped_entries_do_not_matter (partial_ratio : string -> string -> Q)
    (kws : list string) (text : string) (entries : list dir_entry) :
  match_disease partial_ratio kws text
    (Listing (filter (λ e, readable_txt e = true) entries))
  = match_disease partial_ratio kws text (Listing entries).
Proof.
  destruct (extract kws) as [|k ks] eqn:E.
  { unfold match_disease. by rewrite E. }
  rewrite !match_disease_listing by (by rewrite E).
  unfold category_scores. by rewrite categories_readable.
Qed.

(** X9. With some keyword left after filtering, the ranking has exactly one
    tuple for each readable [.txt] file of the folder, named by the file
    name with [.txt] removed. *)
Theorem ranking_names (partial_ratio : string -> string -> Q)
    (kws : list string) (text : string) (entries : list dir_entry)
    (best : best_match) (ranked : list match_result) :
  match_disease partial_ratio kws text (Listing entries) = Ok (best, ranked) ->
  extract kws ≠ [] ->
  map disease ranked
  ≡ₚ map (λ e, Text.remove_all ".txt" (file_name e))
         (filter (λ e, readable_txt e = true) entries).
Proof.
  intros H Hne. rewrite <- categories_names.
  rewrite (Permutation_map disease (match_disease_perm _ _ _ _ _ _ H Hne)).
  unfold category_scores. rewrite map_map. simpl.
  by rewrite (map_ext _ fst) by done.
Qed.

(** [ranking_names] on the worked example. *)
Lemma ranking_names_witness :
  match_disease Reference.partial_ratio (get_transcript_words sample_text)
    sample_text (Listing sample_entries)
  = Ok (sample_best, sample_ranked)
  ∧ extract (get_transcript_words sample_text) ≠ []
  ∧ map disease sample_ranked
    ≡ₚ map (λ e, Text.remove_all ".txt" (file_name e))
           (filter (λ e, readable_txt e = true) sample_entries).
Proof.
  split; [exact sample_run|]. split; [exact sample_extract_nonempty|].
  exact (ranking_names Reference.partial_ratio
           (get_transcript_words sample_text) sample_text sample_entries
           sample_best sample_ranked sample_run sample_extract_nonempty).
Defined.

Section KeywordSet.

Variable partial_ratio : string -> string -> Q.

Hypothesis partial_ratio_range :
  ∀ a b, 0 <= partial_ratio a b ∧ partial_ratio a b <= 100.

Lemma Qmaximum_same_elems (l1 l2 : list Q) :
  l1 ≠ [] -> (∀ x, x ∈ l1 → x ∈ l2) -> Qmaximum l1 <= Qmaximum l2.
Proof.
  intros Hne Hsub.
  assert (Hne2 : l2 ≠ []).
  { destruct l1 as [|x l1]; [done|]. intros ->.
    eapply elem_of_nil, Hsub, elem_of_cons. by left. }
  destruct (Qmaximum_spec l1 Hne) as [Hex _].
  destruct (Qmaximum_spec l2 Hne2) as [_ Hall].
  apply Exists_exists in Hex as (x & Hx & Heq).
  rewrite Forall_forall in Hall. rewrite Heq. by apply Hall, Hsub.
Qed.

Lemma best_score_same_elems (ex1 ex2 : list string) (dk : string) :
  ex1 ≠ [] -> ex2 ≠ [] -> (∀ w, w ∈ ex1 ↔ w ∈ ex2) ->
  best_score partial_ratio ex1 dk == best_score partial_ratio ex2 dk.
Proof.
  intros H1 H2 Hsame.
  rewrite !(best_score_is_max partial_ratio partial_ratio_range) by done.
  assert (Hmap : ∀ l l' : list string, (∀ w, w ∈ l → w ∈ l') ->
            ∀ x, x ∈ map (λ ek, partial_ratio ek dk) l →
                 x ∈ map (λ ek, partial_ratio ek dk) l').
  { intros l l' Hsub x. rewrite !list_elem_of_In, !in_map_iff.
    intros (w & <- & Hw). exists w. split; [done|].
    apply list_elem_of_In, Hsub. by apply list_elem_of_In. }
  apply Qle_antisym; apply Qmaximum_same_elems.
  - by destruct ex1.
  - apply Hmap. intros w. apply Hsame.
  - by destruct ex2.
  - apply Hmap. intros w. apply Hsame.
Qed.

Lemma fuzzy_value_same_elems (ex1 ex2 long : list string) :
  ex1 ≠ [] -> ex2 ≠ [] -> (∀ w, w ∈ ex1 ↔ w ∈ ex2) ->
  fuzzy_value partial_ratio ex1 long == fuzzy_value partial_ratio ex2 long.
Proof.
  intros H1 H2 Hsame. destruct long as [|dk long]; [reflexivity|].
  unfold fuzzy_value. rewrite !sum_best_is_sum.
  assert (Hsum : Qsum (map (best_score partial_ratio ex1) (dk :: long))
                 == Qsum (map (best_score partial_ratio ex2) (dk :: long))).
  { induction (dk :: long) as [|d l IH]; [reflexivity|].
    change (best_score partial_ratio ex1 d
            + Qsum (map (best_score partial_ratio ex1) l)
            == best_score partial_ratio ex2 d
               + Qsum (map (best_score partial_ratio ex2) l)).
    by rewrite IH, (best_score_same_elems ex1 ex2 d). }
  by rewrite Hsum.
Qed.

Lemma category_scores_same_elems (ex1 ex2 : list string) (text : string)
    (entries : list dir_entry) :
  ex1 ≠ [] -> ex2 ≠ [] -> (∀ w, w ∈ ex1 ↔ w ∈ ex2) ->
  category_scores partial_ratio ex1 text entries
  = category_scores partial_ratio ex2 text entries.
Proof.
  intros H1 H2 Hsame. unfold category_scores. apply map_ext. intros [n k].
  unfold score_value. simpl.
  pose proof (fuzzy_value_same_elems ex1 ex2 (keywords_long k) H1 H2 Hsame)
    as Hf.
  rewrite (round1_compat _ _ Hf). f_equal.
  apply round1_compat. by rewrite Hf.
Qed.

End KeywordSet.

(** X10. The result of [match_disease] depends on the keywords only as a
    set: two keyword lists with the same members, in any order and with any
    repetitions, give the same result. *)
Theorem keywords_matter_as_a_set (partial_ratio : string -> string -> Q)
    (Hrange : ∀ a b, 0 <= partial_ratio a b ∧ partial_ratio a b <= 100)
    (kws1 kws2 : list string) (text : string) (dir : folder) :
  (∀ w, w ∈ kws1 ↔ w ∈ kws2) ->
  match_disease partial_ratio kws1 text dir
  = match_disease partial_ratio kws2 text dir.
Proof.
  intros Hsame.
  assert (Hex : ∀ w, w ∈ extract kws1 ↔ w ∈ extract kws2).
  { intros w. unfold extract. rewrite !list_elem_of_filter, Hsame. tauto. }
  destruct (extract kws1) as [|k1 ks1] eqn:E1;
    destruct (extract kws2) as [|k2 ks2] eqn:E2.
  - unfold match_disease. by rewrite E1, E2.
  - exfalso. eapply elem_of_nil, Hex, elem_of_cons. by left.
  - exfalso. eapply elem_of_nil, Hex, elem_of_cons. by left.
  - destruct dir as [| |entries].
    + unfold match_disease. by rewrite E1, E2.
    + unfold match_disease. by rewrite E1, E2.
    + rewrite !match_disease_listing by congruence. rewrite E1, E2.
      by rewrite (category_scores_same_elems partial_ratio Hrange
                    (k1 :: ks1) (k2 :: ks2) text entries).
Qed.

(** [keywords_matter_as_a_set] on two orderings, one with a repetition. *)
Lemma keywords_matter_as_a_set_witness :
  (∀ w, w ∈ ["rash"; "itchy"; "rash"] ↔ w ∈ ["itchy"; "rash"])
  ∧ match_disease Reference.partial_ratio ["rash"; "itchy"; "rash"]
      sample_text (Listing sample_entries)
    = match_disease Reference.partial_ratio ["itchy"; "rash"]
        sample_text (Listing sample_entries).
Proof.
  assert (H : ∀ w, w ∈ ["rash"; "itchy"; "rash"] ↔ w ∈ ["itchy"; "rash"]).
  { intros w. rewrite !elem_of_cons, elem_of_nil. tauto. }
  split; [exact H|].
  exact (keywords_matter_as_a_set Reference.partial_ratio reference_range
           ["rash"; "itchy"; "rash"] ["itchy"; "rash"] sample_text
           (Listing sample_entries) H).
Defined.

Lemma round1_between_tenths (x : Q) (a b : Z) :
  inject_Z a <= x * 10 -> x * 10 <= inject_Z b ->
  inject_Z a / 10 <= round1 x ∧ round1 x <= inject_Z b / 10.
Proof.
  intros Ha Hb. rewrite round1_value.
  destruct (round_half_even_between (x * 10) a b Ha Hb) as [Hlo Hhi].
  set (n := round_half_even (x * 10)) in *.
  rewrite Zle_Qle in Hlo, Hhi.
  assert (Hn : inject_Z n / 10 == inject_Z n * (1 # 10)) by field.
  assert (Hqa : inject_Z a / 10 == inject_Z a * (1 # 10)) by field.
  assert (Hqb : inject_Z b / 10 == inject_Z b * (1 # 10)) by field.
  rewrite Hn, Hqa, Hqb. split; lra.
Qed.

Lemma filter_none {A : Type} (P : A -> Prop) `{!∀ x, Decision (P x)}
    (l : list A) :
  Forall (λ x, ¬ P x) l -> filter P l = [].
Proof.
  induction 1 as [|x l Hx Hl IH]; [done|].
  by rewrite filter_cons, decide_False.
Qed.

Lemma exact_value_all (text : string) (long : list string) :
  long ≠ [] ->
  Forall (λ dk, Text.search dk text = true) long ->
  exact_value text long == 100.
Proof.
  intros Hne Hall. unfold exact_value.
  rewrite exact_matches_count, filter_all by done.
  assert (Hmax : Z.max 1 (Z.of_nat (length long)) = Z.of_nat (length long)).
  { destruct long; [done|]. simpl length. lia. }
  rewrite Hmax. pose proof (len_pos long Hne) as Hpos. unfold len in Hpos.
  field. lra.
Qed.

Lemma exact_value_none (text : string) (long : list string) :
  Forall (λ dk, Text.search dk text = false) long ->
  exact_value text long == 0.
Proof.
  intros Hall. unfold exact_value.
  rewrite exact_matches_count, filter_none.
  - simpl length. change (inject_Z (Z.of_nat 0)) with 0.
    pose proof (exact_divisor_pos long). field. lra.
  - eapply Forall_impl; [exact Hall|]. intros dk Hdk. congruence.
Qed.

(** X11. For one readable keyword file with a phrase of length 3 or more:
    when every such phrase occurs literally in the transcript text, the
    reported exact sub-score is 100 and the final score is at least 35;
    when none does, the exact sub-score is 0 and the final score is at
    most 65. *)
Theorem exact_coverage_extremes (partial_ratio : string -> string -> Q)
    (Hrange : ∀ a b, 0 <= partial_ratio a b ∧ partial_ratio a b <= 100)
    (extracted : list string) (text name : string) (keywords : list string)
    (r : match_result) :
  score_file partial_ratio extracted text name keywords = Ok r ->
  keywords_long keywords ≠ [] ->
  (Forall (λ dk, Text.search dk text = true) (keywords_long keywords) ->
   exact r = 100 ∧ 35 <= final r)
  ∧ (Forall (λ dk, Text.search dk text = false) (keywords_long keywords) ->
     exact r = 0 ∧ final r <= 65).
Proof.
  intros H Hne. rewrite score_file_ok in H. simplify_eq.
  unfold score_value. simpl.
  set (long := keywords_long keywords) in *.
  destruct (fuzzy_value_range partial_ratio Hrange extracted long)
    as [Hf0 Hf1].
  set (af := fuzzy_value partial_ratio extracted long) in *.
  split; intros Hall.
  - pose proof (exact_value_all text long Hne Hall) as He.
    split; [by rewrite (round1_compat _ _ He)|].
    destruct (round1_between_tenths
                ((65 # 100) * af + (35 # 100) * exact_value text long)
                350 1000) as [Hlo _].
    { change (inject_Z 350) with 350. rewrite He. lra. }
    { change (inject_Z 1000) with 1000. rewrite He. lra. }
    change (inject_Z 350 / 10) with (350 / 10) in Hlo.
    assert (H35 : 350 / 10 == 35) by reflexivity. by rewrite <- H35.
  - pose proof (exact_value_none text long Hall) as He.
    split; [by rewrite (round1_compat _ _ He)|].
    destruct (round1_between_tenths
                ((65 # 100) * af + (35 # 100) * exact_value text long)
                0 650) as [_ Hhi].
    { change (inject_Z 0) with 0. rewrite He. lra. }
    { change (inject_Z 650) with 650. rewrite He. lra. }
    change (inject_Z 650 / 10) with (650 / 10) in Hhi.
    assert (H65 : 650 / 10 == 65) by reflexivity. by rewrite <- H65.
Qed.

(** [exact_coverage_extremes] on the file [hives.txt] of the worked
    example, whose only long phrase [rash] occurs in the transcript. *)
Lemma exact_coverage_extremes_witness :
  score_file Reference.partial_ratio ["rash"] sample_text "hives"
    ["rash"; "it"]
  = Ok (MatchResult "hives" 100 100 100)
  ∧ keywords_long ["rash"; "it"] ≠ []
  ∧ (Forall (λ dk, Text.search dk sample_text = true)
       (keywords_long ["rash"; "it"]) ->
     exact (MatchResult "hives" 100 100 100) = 100
     ∧ 35 <= final (MatchResult "hives" 100 100 100))
  ∧ (Forall (λ dk, Text.search dk sample_text = false)
       (keywords_long ["rash"; "it"]) ->
     exact (MatchResult "hives" 100 100 100) = 0
     ∧ final (MatchResult "hives" 100 100 100) <= 65).
Proof.
  assert (H : score_file Reference.partial_ratio ["rash"] sample_text "hives"
                ["rash"; "it"]
              = Ok (MatchResult "hives" 100 100 100))
    by (vm_compute; reflexivity).
  assert (Hne : keywords_long ["rash"; "it"] ≠ []) by discriminate.
  split; [exact H|]. split; [exact Hne|].
  exact (exact_coverage_extremes Reference.partial_ratio reference_range
           ["rash"] sample_text "hives" ["rash"; "it"] _ H Hne).
Defined.

Section FileFacts.
Import Text.

Lemma endswith_app (base suf : string) :
  endswith suf (String.append base suf) = true.
Proof.
  induction base as [|c base IH].
  - rewrite append_nil_l. destruct suf; simpl; by rewrite ?String.eqb_refl, ?Ascii.eqb_refl.
  - rewrite append_cons. simpl. rewrite IH. apply orb_true_r.
Qed.

Lemma remove_txt_app (base : string) :
  all_chars (fun c => negb (Ascii.eqb c "."%char)) base = true ->
  remove_go ".txt" 0 (String.append base ".txt") = base.
Proof.
  induction base as [|c base IH]; [done|]. intros H.
  apply andb_true_iff in H as [Hc Hb]. apply negb_true_iff in Hc.
  rewrite append_cons.
  change (remove_go ".txt" 0 (String c (String.append base ".txt")))
    with (if String.prefix ".txt" (String c (String.append base ".txt"))
          then remove_go ".txt" 3 (String.append base ".txt")
          else String c (remove_go ".txt" 0 (String.append base ".txt"))).
  assert (Hp : String.prefix ".txt" (String c (String.append base ".txt"))
               = false).
  { cbn [String.prefix]. destruct (ascii_dec "." c) as [<-|Hne]; [|done].
    by rewrite Ascii.eqb_refl in Hc. }
  by rewrite Hp, IH.
Qed.

Lemma lstrip_lower (s : string) : lstrip (lower s) = lower (lstrip s).
Proof.
  induction s as [|c s IH]; [done|]. simpl.
  rewrite lower_char_space. by destruct (is_space c).
Qed.

Lemma rstrip_lower (s : string) : rstrip (lower s) = lower (rstrip s).
Proof.
  induction s as [|c s IH]; [done|]. simpl. rewrite IH, lower_char_space.
  destruct (rstrip s); simpl; [by destruct (is_space c) | done].
Qed.

Lemma strip_lower (s : string) : strip (lower s) = lower (strip s).
Proof. unfold strip. by rewrite lstrip_lower, rstrip_lower. Qed.

(** The string is empty or starts with a character that is no whitespace. *)
Lemma lstrip_fixed (s : string) :
  match s with
  | EmptyString => True
  | String c _ => is_space c = false
  end -> lstrip s = s.
Proof. destruct s as [|c s]; [done|]. simpl. by intros ->. Qed.

Lemma lstrip_head (s : string) :
  match lstrip s with
  | EmptyString => True
  | String c _ => is_space c = false
  end.
Proof.
  induction s as [|c s IH]; [done|]. simpl.
  destruct (is_space c) eqn:E; [done|]. exact E.
Qed.

Lemma rstrip_head (s : string) :
  match s with
  | EmptyString => True
  | String c _ => is_space c = false
  end ->
  match rstrip s with
  | EmptyString => True
  | String c _ => is_space c = false
  end.
Proof.
  destruct s as [|c s]; [done|]. simpl. intros Hc. rewrite Hc.
  by destruct (rstrip s).
Qed.

Lemma rstrip_idem (s : string) : rstrip (rstrip s) = rstrip s.
Proof.
  induction s as [|c s IH]; [done|]. simpl.
  destruct (rstrip s) as [|d r] eqn:E.
  - destruct (is_space c) eqn:Ec; [done|]. simpl. by rewrite Ec.
  - simpl. simpl in IH. by rewrite IH.
Qed.

Lemma strip_idem (s : string) : strip (strip s) = strip s.
Proof.
  unfold strip.
  rewrite (lstrip_fixed (rstrip (lstrip s))).
  - apply rstrip_idem.
  - apply rstrip_head, lstrip_head.
Qed.

Lemma lower_nonempty (s : string) : s ≠ EmptyString -> lower s ≠ EmptyString.
Proof. by destruct s. Qed.

End FileFacts.

(** X12. For a file whose name is a base without any dot followed by
    [.txt], the loop accepts the file and the disease name is the base:
    the category of the entry is the base with the keywords of the file. *)
Theorem plain_file_name (base : string) (lines : list string) :
  Text.all_chars (fun c => negb (Ascii.eqb c "."%char)) base = true ->
  Text.endswith ".txt" (String.append base ".txt") = true
  ∧ Text.remove_all ".txt" (String.append base ".txt") = base
  ∧ category (DirEntry (String.append base ".txt") (Lines lines))
    = Some (base, disease_keywords lines).
Proof.
  intros H.
  assert (He : Text.endswith ".txt" (String.append base ".txt") = true)
    by apply endswith_app.
  assert (Hr : Text.remove_all ".txt" (String.append base ".txt") = base)
    by by apply remove_txt_app.
  split; [exact He|]. split; [exact Hr|].
  unfold category. simpl file_name. simpl content. by rewrite He, Hr.
Qed.

(** [plain_file_name] on the file name [eczema.txt]. *)
Lemma plain_file_name_witness :
  Text.all_chars (fun c => negb (Ascii.eqb c "."%char)) "eczema" = true
  ∧ Text.endswith ".txt" (String.append "eczema" ".txt") = true
  ∧ Text.remove_all ".txt" (String.append "eczema" ".txt") = "eczema"
  ∧ category (DirEntry (String.append "eczema" ".txt") (Lines ["rash "]))
    = Some ("eczema", disease_keywords ["rash "]).
Proof.
  split; [reflexivity|].
  exact (plain_file_name "eczema" ["rash "] eq_refl).
Defined.

(** X13. Every keyword phrase read from a file is not empty, has no
    upper-case letter and has no whitespace at either end. *)
Theorem disease_keywords_normalised (lines : list string) :
  Forall (λ dk, dk ≠ EmptyString
                ∧ Text.all_chars (fun c => negb (Text.is_upper c)) dk = true
                ∧ Text.strip dk = dk)
         (disease_keywords lines).
Proof.
  unfold disease_keywords. apply Forall_forall. intros dk Hdk.
  apply list_elem_of_In, in_map_iff in Hdk as (line & <- & Hline).
  apply list_elem_of_In, list_elem_of_filter in Hline as [Hne _].
  split_and!.
  - by apply lower_nonempty.
  - apply lower_not_upper.
  - by rewrite <- strip_lower, strip_idem.
Qed.

Lemma round_half_even_mono (x y : Q) :
  x <= y -> (round_half_even x <= round_half_even y)%Z.
Proof.
  intros Hxy.
  destruct (Z_le_gt_dec (round_half_even x) (round_half_even y)) as [|Hgt];
    [done|]. exfalso.
  destruct (round_half_even_near x) as [Hx _].
  destruct (round_half_even_near y) as [_ Hy].
  assert (Hz : (round_half_even y + 1 <= round_half_even x)%Z) by lia.
  rewrite Zle_Qle, inject_Z_plus in Hz. change (inject_Z 1) with 1 in Hz.
  assert (Heq : x == y) by lra.
  rewrite (round_half_even_compat x y Heq) in Hgt. lia.
Qed.

Lemma round1_mono (x y : Q) : x <= y -> round1 x <= round1 y.
Proof.
  intros Hxy. rewrite !round1_value.
  assert (Hm : (round_half_even (x * 10) <= round_half_even (y * 10))%Z)
    by (apply round_half_even_mono; lra).
  rewrite Zle_Qle in Hm.
  set (n := inject_Z (round_half_even (x * 10))) in *.
  set (m := inject_Z (round_half_even (y * 10))) in *.
  assert (Hn : n / 10 == n * (1 # 10)) by field.
  assert (Hq : m / 10 == m * (1 # 10)) by field.
  rewrite Hn, Hq. lra.
Qed.

Lemma length_filter_mono {A : Type} (P Q : A -> Prop)
    `{!∀ x, Decision (P x), !∀ x, Decision (Q x)} (l : list A) :
  (∀ x, P x → Q x) ->
  (length (filter P l) <= length (filter Q l))%nat.
Proof.
  intros HPQ. induction l as [|x l IH]; [done|].
  rewrite !filter_cons.
  destruct (decide (P x)) as [HP|HP], (decide (Q x)) as [HQ|HQ];
    simpl; try lia.
  by destruct HQ; apply HPQ.
Qed.

Lemma append_assoc (a b c : string) :
  String.append (String.append a b) c = String.append a (String.append b c).
Proof.
  induction a as [|x a IH]; [done|]. by rewrite !append_cons, IH.
Qed.

Lemma search_extend (pat s a b : string) :
  Text.search pat s = true ->
  Text.search pat (String.append a (String.append s b)) = true.
Proof.
  rewrite !search_spec. intros (u & v & ->).
  exists (String.append a u), (String.append v b).
  by rewrite !append_assoc.
Qed.

Lemma exact_value_extend (text a b : string) (long : list string) :
  exact_value text long
  <= exact_value (String.append a (String.append text b)) long.
Proof.
  unfold exact_value. rewrite !exact_matches_count.
  pose proof (exact_divisor_pos long) as Hd.
  set (d := inject_Z (Z.max 1 (Z.of_nat (length long)))) in *.
  assert (Hle : inject_Z (Z.of_nat (length
                  (filter (λ dk, Text.search dk text = true) long)))
                <= inject_Z (Z.of_nat (length
                  (filter (λ dk, Text.search dk
                     (String.append a (String.append text b)) = true) long)))).
  { rewrite <- Zle_Qle. apply Nat2Z.inj_le, length_filter_mono.
    intros dk. apply search_extend. }
  apply Qmult_le_compat_r; [|lra].
  unfold Qdiv. apply Qmult_le_compat_r; [done|].
  apply Qlt_le_weak, Qinv_lt_0_compat, Hd.
Qed.

(** X15. Text added before or after the transcript text, with the same
    keywords, never lowers a score: the fuzzy sub-score of a file is
    unchanged, its exact sub-score and its final score do not decrease. *)
Theorem longer_transcript_never_lowers (partial_ratio : string -> string -> Q)
    (extracted : list string) (text a b name : string)
    (keywords : list string) (r r' : match_result) :
  score_file partial_ratio extracted text name keywords = Ok r ->
  score_file partial_ratio extracted
    (String.append a (String.append text b)) name keywords = Ok r' ->
  fuzzy r' = fuzzy r ∧ exact r <= exact r' ∧ final r <= final r'.
Proof.
  intros H H'. rewrite score_file_ok in H, H'. simplify_eq.
  unfold score_value. simpl.
  pose proof (exact_value_extend text a b (keywords_long keywords)) as He.
  split_and!; [done | by apply round1_mono |].
  apply round1_mono. lra.
Qed.

(** [longer_transcript_never_lowers] on the phrase [rash on arm]: the
    longer transcript holds it, the shorter one does not. *)
Lemma longer_transcript_never_lowers_witness :
  score_file Reference.partial_ratio ["rash"] "rash on" "eczema"
    ["rash on arm"]
  = Ok (MatchResult "eczema" 65 100 0)
  ∧ score_file Reference.partial_ratio ["rash"]
      (String.append "A " (String.append "rash on" " arm.")) "eczema"
      ["rash on arm"]
    = Ok (MatchResult "eczema" 100 100 100)
  ∧ fuzzy (MatchResult "eczema" 100 100 100)
    = fuzzy (MatchResult "eczema" 65 100 0)
  ∧ exact (MatchResult "eczema" 65 100 0)
    <= exact (MatchResult "eczema" 100 100 100)
  ∧ final (MatchResult "eczema" 65 100 0)
    <= final (MatchResult "eczema" 100 100 100).
Proof.
  assert (H : score_file Reference.partial_ratio ["rash"] "rash on" "eczema"
                ["rash on arm"]
              = Ok (MatchResult "eczema" 65 100 0))
    by (vm_compute; reflexivity).
  assert (H' : score_file Reference.partial_ratio ["rash"]
                 (String.append "A " (String.append "rash on" " arm."))
                 "eczema" ["rash on arm"]
               = Ok (MatchResult "eczema" 100 100 100))
    by (vm_compute; reflexivity).
  split; [exact H|]. split; [exact H'|].
  exact (longer_transcript_never_lowers Reference.partial_ratio ["rash"]
           "rash on" "A " " arm." "eczema" ["rash on arm"] _ _ H H').
Defined.

Section SilentFacts.
Import Text.

Lemma split_go_spaces (s : string) :
  all_chars is_space s = true -> split_go s = (EmptyString, []).
Proof.
  induction s as [|c s IH]; [done|]. simpl.
  rewrite andb_true_iff. intros [Hc Hs]. by rewrite (IH Hs), Hc.
Qed.

Lemma clean_text_spaces (text : string) :
  all_chars (fun c => negb (is_word c)) text = true ->
  all_chars is_space (clean_text text) = true.
Proof.
  unfold clean_text. induction text as [|c s IH]; [done|]. simpl.
  rewrite andb_true_iff, negb_true_iff. intros [Hc Hs].
  rewrite lower_char_word, lower_char_space, Hc. simpl.
  destruct (is_space c) eqn:E; [|by apply IH].
  simpl. by rewrite lower_char_space, E, (IH Hs).
Qed.

End SilentFacts.

(** X16. A transcript without any letter, digit or underscore has no words,
    and [match_disease] on its words takes the [NoKeywords] exit whatever
    the keyword folder is. *)
Theorem wordless_transcript (partial_ratio : string -> string -> Q)
    (text : string) (dir : folder) :
  Text.all_chars (fun c => negb (Text.is_word c)) text = true ->
  get_transcript_words text = []
  ∧ match_disease partial_ratio (get_transcript_words text) text dir
    = Ok ((Some "NoKeywords", 0), []).
Proof.
  intros H.
  assert (Hw : all_words text = []).
  { unfold all_words, Text.split.
    by rewrite (split_go_spaces _ (clean_text_spaces text H)). }
  assert (Hg : get_transcript_words text = []).
  { unfold get_transcript_words, found_keywords. by rewrite Hw. }
  split; [exact Hg|]. by rewrite Hg.
Qed.

(** [wordless_transcript] on a transcript of dots and spaces. *)
Lemma wordless_transcript_witness :
  Text.all_chars (fun c => negb (Text.is_word c)) "... ?!" = true
  ∧ get_transcript_words "... ?!" = []
  ∧ match_disease Reference.partial_ratio (get_transcript_words "... ?!")
      "... ?!" (Listing sample_entries)
    = Ok ((Some "NoKeywords", 0), []).
Proof.
  split; [reflexivity|].
  exact (wordless_transcript Reference.partial_ratio "... ?!"
           (Listing sample_entries) eq_refl).
Defined.
